(** * Watch2Gether: the room session coordinator

    A shallow embedding of [server/lib/rooms.js] (classes [Room] and [Rooms])
    and of the Socket.IO handlers of [server.js] ([room:join], [chat:message],
    [host:action], [host:take], [disconnecting]) together with the [/upload]
    notification, followed by the properties of the coordinator.

    Conventions.
    - A JavaScript string is a [string]; one [ascii] stands for one UTF-16
      code unit (code units above 255 are not represented), so
      [String.length] is the [.length] of the source.
    - A JavaScript number is an exact rational [Q]; [undefined] and [null]
      are [None].  The text rendering of a time ([formatTime]) is kept
      abstract in the runtime.
    - [uuidv4()], [new Date().toISOString()] and [Math.random()] read the
      runtime at a draw counter that every call advances.
    - [this.users] is a plain object literal: its own properties are kept in
      insertion order (the order of [Object.values] for keys that are not
      array indices), and a property read that finds no own key falls back
      to [Object.prototype], of which the state keeps the one property the
      code can add, [name]. *)

From Stdlib Require Import QArith Ascii String DecimalString.
From stdpp Require Import gmap strings list fin_maps.

(** ** JavaScript strings and objects *)

Module JS.

(** White space and line terminators removed by [String.prototype.trim],
    as far as they are code units below 256. *)
Definition is_space (c : ascii) : bool :=
  let n := nat_of_ascii c in
  (Nat.leb 9 n && Nat.leb n 13) || Nat.eqb n 32 || Nat.eqb n 160.

Fixpoint trimStart (s : string) : string :=
  match s with
  | String c r => if is_space c then trimStart r else s
  | EmptyString => EmptyString
  end.

Fixpoint trimEnd (s : string) : string :=
  match s with
  | EmptyString => EmptyString
  | String c r =>
      match trimEnd r with
      | EmptyString => if is_space c then EmptyString else String c EmptyString
      | r' => String c r'
      end
  end.

Definition trim (s : string) : string := trimEnd (trimStart s).

(** [s.startsWith(p)] *)
Definition startsWith (p s : string) : bool := String.prefix p s.

(** [s.slice(n)] for a non-negative [n] *)
Fixpoint slice (n : nat) (s : string) : string :=
  match n, s with
  | O, _ => s
  | S n', String _ r => slice n' r
  | S _, EmptyString => EmptyString
  end.

(** Truthiness of a string: every string but the empty one. *)
Definition truthy (s : string) : bool := negb (String.eqb s "").

(** An integer in a template literal. *)
Definition show_int (z : Z) : string := NilZero.string_of_int (Z.to_int z).

(** A possibly undefined string in a template literal. *)
Definition show (v : option string) : string :=
  match v with Some s => s | None => "undefined" end.

(** The names [Object.prototype] defines.  All are functions except the
    accessor [__proto__], which yields [Object.prototype] itself; a
    function carries its own [name], [Object] for [constructor]. *)
Definition Object_prototype_functions : list (string * string) :=
  [ ("constructor", "Object");
    ("__defineGetter__", "__defineGetter__");
    ("__defineSetter__", "__defineSetter__");
    ("hasOwnProperty", "hasOwnProperty");
    ("__lookupGetter__", "__lookupGetter__");
    ("__lookupSetter__", "__lookupSetter__");
    ("isPrototypeOf", "isPrototypeOf");
    ("propertyIsEnumerable", "propertyIsEnumerable");
    ("toString", "toString");
    ("valueOf", "valueOf");
    ("toLocaleString", "toLocaleString") ].

(** What a property read of a plain object finds: an own value, a function
    of [Object.prototype], [Object.prototype] itself, or the string a
    program has stored as [Object.prototype.name]. *)
Inductive Property (A : Type) : Type :=
| Own (v : A)
| InheritedFunction (fname : string)
| InheritedProto
| InheritedName (value : string).
Arguments Own {A} v.
Arguments InheritedFunction {A} fname.
Arguments InheritedProto {A}.
Arguments InheritedName {A} value.

Definition inherited {A} (k : string) : option (Property A) :=
  if String.eqb k "__proto__" then Some InheritedProto
  else
    match find (λ p, String.eqb (fst p) k) Object_prototype_functions with
    | Some p => Some (InheritedFunction (snd p))
    | None => None
    end.

Definition is_inherited (k : string) : bool :=
  match @inherited unit k with Some _ => true | None => false end.

(** The same read once [Object.prototype.name] holds [pn] ([None] while the
    property does not exist): the key [name] is inherited as well. *)
Definition inherited_in {A} (pn : option string) (k : string)
  : option (Property A) :=
  match inherited k with
  | Some p => Some p
  | None =>
      if String.eqb k "name" then
        match pn with Some n => Some (InheritedName n) | None => None end
      else None
  end.

(** The outcome of a truthiness test on what a read finds, as in
    [if (!user)]: objects and functions pass, a string passes unless it is
    empty, [undefined] does not. *)
Definition found {A} (p : option (Property A)) : option (Property A) :=
  match p with
  | Some (InheritedName n) => if truthy n then p else None
  | _ => p
  end.

(** A read of the key [k] that finds no own property passes that test. *)
Definition is_inherited_in (pn : option string) (k : string) : bool :=
  match found (@inherited_in unit pn k) with Some _ => true | None => false end.

(** Hexadecimal digits of the random bits behind a version 4 UUID. *)
Definition hex_digit (n : N) : ascii :=
  nth (N.to_nat (n mod 16))
    (list_ascii_of_string "0123456789abcdef") "0"%char.

Fixpoint nibbles (k : nat) (n : N) : list N :=
  match k with
  | O => []
  | S k' => n mod 16 :: nibbles k' (n / 16)
  end%N.

(** The 8-4-4-4-12 rendering, with the version digit [4] and a variant
    digit among [8 9 a b]. *)
Definition uuid_string (bits : N) : string :=
  let d := nibbles 32 bits in
  let hex l := string_of_list_ascii (map hex_digit l) in
  hex (take 8 d) +:+ "-" +:+ hex (take 4 (drop 8 d)) +:+ "-4"
    +:+ hex (take 3 (drop 13 d)) +:+ "-"
    +:+ hex [(8 + nth 16 d 0 mod 4)%N] +:+ hex (take 3 (drop 17 d)) +:+ "-"
    +:+ hex (take 12 (drop 20 d)).

End JS.

(** ** The runtime: sources of identifiers, time stamps and randomness *)

Class Runtime := {
  (** the random bits of the [n]-th draw, read by [uuidv4()] *)
  entropy : nat → N;
  (** [new Date().toISOString()] at the [n]-th draw *)
  clock : nat → string;
  (** [Math.random()] at the [n]-th draw is [random53 n mod 2^53 / 2^53] *)
  random53 : nat → N;
  (** [formatTime(sec)] of server.js, on a number or on undefined/null *)
  formatTime : option Q → string
}.

(** Computations that draw from the runtime thread the draw counter. *)
Definition Draw (A : Type) : Type := nat → A * nat.

Definition ret {A} (a : A) : Draw A := λ t, (a, t).

Definition bind {A B} (c : Draw A) (k : A → Draw B) : Draw B :=
  λ t, let '(a, t') := c t in k a t'.

Notation "'let*' x := c 'in' k" := (bind c (λ x, k))
  (at level 10, x pattern, c at level 100, k at level 200).

Section Draws.
Context `{Runtime}.

Definition uuidv4 : Draw string := λ t, (JS.uuid_string (entropy t), S t).

Definition now : Draw string := λ t, (clock t, S t).

(** [Math.floor(100 + Math.random() * 900)] *)
Definition random_guest_number : Draw Z :=
  λ t, ((100 + Z.of_N (random53 t mod 2 ^ 53) * 900 / 2 ^ 53)%Z, S t).
End Draws.

(** ** The data model of rooms.js *)

Module User.
(** [{ id, name, socketId, joinedAt }] *)
Record t := mk {
  id : string;
  name : string;
  socketId : string;
  joinedAt : string
}.
End User.

Module Log.
(** [{ id, type, text, time }] *)
Record t := mk {
  id : string;
  type : string;
  text : string;
  time : string
}.
End Log.

Module Video.
(** The upload metadata [{ filename, savedName, size, url, uploadedAt }] *)
Record t := mk {
  filename : string;
  savedName : string;
  size : N;
  url : string;
  uploadedAt : string
}.
End Video.

Module Playback.
(** [{ playing, time }]; [time] holds whatever the host last sent *)
Record t := mk {
  playing : bool;
  time : option Q
}.
End Playback.

Module Room.

Record t := mk {
  id : string;
  users : list User.t;        (* userId -> user, in insertion order *)
  hostId : option string;     (* null is None *)
  video : option Video.t;
  logs : list Log.t;
  playbackState : Playback.t
}.

(** [constructor(id)] *)
Definition new (id : string) : t :=
  {| id := id; users := []; hostId := None; video := None; logs := [];
     playbackState := {| Playback.playing := false; Playback.time := Some 0%Q |} |}.

Definition with_users (r : t) (us : list User.t) : t :=
  {| id := id r; users := us; hostId := hostId r; video := video r;
     logs := logs r; playbackState := playbackState r |}.

Definition with_hostId (r : t) (h : option string) : t :=
  {| id := id r; users := users r; hostId := h; video := video r;
     logs := logs r; playbackState := playbackState r |}.

Definition with_video (r : t) (v : option Video.t) : t :=
  {| id := id r; users := users r; hostId := hostId r; video := v;
     logs := logs r; playbackState := playbackState r |}.

Definition with_logs (r : t) (l : list Log.t) : t :=
  {| id := id r; users := users r; hostId := hostId r; video := video r;
     logs := l; playbackState := playbackState r |}.

Definition with_playbackState (r : t) (p : Playback.t) : t :=
  {| id := id r; users := users r; hostId := hostId r; video := video r;
     logs := logs r; playbackState := p |}.

(** The own property [users[k]]. *)
Definition own (k : string) (us : list User.t) : option User.t :=
  find (λ u, String.eqb (User.id u) k) us.

(** [users[u.id] = u]: an existing key keeps its place, a new one goes last. *)
Fixpoint put (u : User.t) (us : list User.t) : list User.t :=
  match us with
  | [] => [u]
  | v :: vs =>
      if String.eqb (User.id v) (User.id u) then u :: vs else v :: put u vs
  end.

(** [delete users[k]] *)
Definition del (k : string) (us : list User.t) : list User.t :=
  filter (λ u, User.id u ≠ k) us.

Section Methods.
Context `{Runtime}.

(** [addUser({ socketId, username })] *)
Definition addUser (socketId : string) (username : option string) (r : t)
  : Draw (User.t * t) :=
  let* id := uuidv4 in
  let* name :=
    match username with
    | Some s =>
        if JS.truthy s then ret s
        else let* n := random_guest_number in ret ("Guest-" +:+ JS.show_int n)
    | None => let* n := random_guest_number in ret ("Guest-" +:+ JS.show_int n)
    end in
  let* joinedAt := now in
  let user := User.mk id name socketId joinedAt in
  ret (user, with_users r (put user (users r))).

(** [addLog(entry)]: push, then shift once when over 500. *)
Definition addLog (type text : string) (r : t) : Draw (Log.t * t) :=
  let* id := uuidv4 in
  let* time := now in
  let log := Log.mk id (if JS.truthy type then type else "info") text time in
  let pushed := logs r ++ [log] in
  ret (log, with_logs r (if Nat.ltb 500 (length pushed) then tail pushed else pushed)).
End Methods.

(** [removeUser(userId)] *)
Definition removeUser (userId : string) (r : t) : t :=
  with_users r (del userId (users r)).

(** [getUser(userId)]: [this.users[userId]], with [pn] the value of
    [Object.prototype.name] at the time of the call *)
Definition getUser (pn : option string) (r : t) (userId : string)
  : option (JS.Property User.t) :=
  match own userId (users r) with
  | Some u => Some (JS.Own u)
  | None => JS.inherited_in pn userId
  end.

(** [getUserBySocket(socketId)] *)
Definition getUserBySocket (r : t) (socketId : string) : option User.t :=
  find (λ u, String.eqb (User.socketId u) socketId) (users r).

(** [anyUser()] *)
Definition anyUser (r : t) : option User.t := head (users r).

(** [userList()] *)
Definition userList (r : t) : list (string * string) :=
  map (λ u, (User.id u, User.name u)) (users r).

(** [setHost(userId)] *)
Definition setHost (userId : string) (r : t) : t := with_hostId r (Some userId).

(** [!room.hostId] *)
Definition no_host (r : t) : bool :=
  match hostId r with
  | None => true
  | Some h => negb (JS.truthy h)
  end.

(** How the assignment in [changeUsername] completes.  The method is
    class code, hence strict: writing the read-only [name] of an inherited
    function throws, writing [name] through [__proto__] lands on
    [Object.prototype], and writing a property of a string throws. *)
Inductive Assigned :=
| Renamed (r : t)
| ProtoNamed (newName : string)
| TypeError.

Definition rename (newName : string) (u : User.t) : User.t :=
  User.mk (User.id u) newName (User.socketId u) (User.joinedAt u).

(** [changeUsername(userId, newName)] *)
Definition changeUsername (pn : option string) (userId newName : string) (r : t)
  : Assigned :=
  match JS.found (getUser pn r userId) with
  | Some (JS.Own u) => Renamed (with_users r (put (rename newName u) (users r)))
  | Some (JS.InheritedFunction _) => TypeError
  | Some JS.InheritedProto => ProtoNamed newName
  | Some (JS.InheritedName _) => TypeError
  | None => Renamed r
  end.

End Room.

Module Rooms.
Section Methods.
Context `{Runtime}.

(** [create(id)]: [new Room(id || uuidv4())], stored under [room.id] *)
Definition create (id : string) (m : gmap string Room.t)
  : Draw (Room.t * gmap string Room.t) :=
  let* key := if JS.truthy id then ret id else uuidv4 in
  let room := Room.new key in
  ret (room, <[key := room]> m).
End Methods.

(** [get(id)] *)
Definition get (id : string) (m : gmap string Room.t) : option Room.t := m !! id.

(** [delete(id)] *)
Definition delete (id : string) (m : gmap string Room.t) : gmap string Room.t :=
  base.delete id m.
End Rooms.

(** ** The server state and what a handler sends *)

Record World := mkWorld {
  rooms : gmap string Room.t;                (* [rooms.map] *)
  socket_rooms : gmap string (list string);  (* [socket.rooms] of each socket *)
  proto_name : option string;                (* [Object.prototype.name] *)
  tick : nat                                 (* the draw counter *)
}.

Definition init : World :=
  {| rooms := ∅; socket_rooms := ∅; proto_name := None; tick := 0 |}.

(** [socket.emit], [io.to(roomId).emit] and [socket.to(roomId).emit] *)
Inductive Target :=
| ToSocket (socket : string)
| ToRoom (roomId : string)
| ToRoomExcept (roomId socket : string).

Inductive Message :=
| room_state (roomId : string) (users : list (string * string))
    (hostId : option string) (video : option Video.t) (logs : list Log.t)
    (playbackState : Playback.t)
| room_user_joined (user : User.t) (log : Log.t)
| room_user_list (users : list (string * string))
| room_user_left (userId : string) (log : Log.t)
| chat_log (log : Log.t)
| chat_message (id userId : string) (username : option string) (text time : string)
| video_uploaded (video : Video.t) (log : option Log.t)
| host_play (time : option Q) (log : Log.t)
| host_pause (time : option Q) (log : Log.t)
| host_seek (time : option Q) (log : Log.t)
| host_changed (hostId : string) (log : Log.t).

Record Emit := mkEmit { target : Target; message : Message }.

(** The argument of the acknowledgement [cb && cb(...)]. *)
Inductive Reply :=
| Ok
| OkUser (user : User.t)
| Fail (error : option string).

(** What one handler run leaves behind; [reply] is [None] when the handler
    returns without reaching an acknowledgement. *)
Record Outcome := mkOutcome {
  world : World;
  emits : list Emit;
  reply : option Reply
}.

Definition with_room (w : World) (key : string) (r : Room.t) (t : nat) : World :=
  {| rooms := <[key := r]> (rooms w); socket_rooms := socket_rooms w;
     proto_name := proto_name w; tick := t |}.

(** The [name] of what [getUser] found. *)
Definition name_of (w : World) (p : JS.Property User.t) : option string :=
  match p with
  | JS.Own u => Some (User.name u)
  | JS.InheritedFunction f => Some f
  | JS.InheritedProto => proto_name w
  | JS.InheritedName _ => proto_name w
  end.

(** [socket.join(roomId)]: [socket.rooms] is a set in insertion order. *)
Definition socket_join (sock roomId : string) (m : gmap string (list string))
  : gmap string (list string) :=
  let joined := default [] (m !! sock) in
  <[sock := if bool_decide (roomId ∈ joined) then joined else joined ++ [roomId]]> m.

(** [logs.slice(-n)] *)
Definition last_n {A} (n : nat) (l : list A) : list A := drop (length l - n) l.

(** ** The handlers of server.js *)

Section Handlers.
Context `{Runtime}.

(** [socket.on('room:join')] from the room object on *)
Definition join_room (sock roomId : string) (username : option string)
    (room : Room.t) : Draw (Room.t * list Emit * Reply) :=
  let* (user, room) := Room.addUser sock username room in
  let* room :=
    if Room.no_host room then
      let* (_, room) :=
        Room.addLog "host_assigned" (User.name user +:+ " became host")
          (Room.setHost (User.id user) room) in
      ret room
    else ret room in
  let* (joinedLog, room) :=
    Room.addLog "user_joined" (User.name user +:+ " joined") room in
  ret (room,
       [ mkEmit (ToSocket sock)
           (room_state roomId (Room.userList room) (Room.hostId room)
              (Room.video room) (last_n 50 (Room.logs room))
              (Room.playbackState room));
         mkEmit (ToRoomExcept roomId sock) (room_user_joined user joinedLog);
         mkEmit (ToRoom roomId) (room_user_list (Room.userList room)) ],
       OkUser user).

Definition on_room_join (sock roomId : string) (username : option string)
    (w : World) : Outcome :=
  let '(key, room, m, t) :=
    match rooms w !! roomId with
    | Some room => (roomId, room, rooms w, tick w)
    | None =>
        let '(room, m, t) := Rooms.create roomId (rooms w) (tick w) in
        (Room.id room, room, m, t)
    end in
  let '(room, out, r, t) := join_room sock roomId username room t in
  {| world := {| rooms := <[key := room]> m;
                 socket_rooms := socket_join sock roomId (socket_rooms w);
                 proto_name := proto_name w; tick := t |};
     emits := out; reply := Some r |}.

(** [socket.on('chat:message')] *)
Definition on_chat_message (roomId userId text : string) (w : World) : Outcome :=
  match rooms w !! roomId with
  | None => mkOutcome w [] None
  | Some room =>
      match JS.found (Room.getUser (proto_name w) room userId) with
      | None => mkOutcome w [] None
      | Some user =>
          if JS.startsWith "/name" (JS.trim text) then
            let newName := JS.trim (JS.slice 5 (JS.trim text)) in
            if JS.truthy newName && Nat.leb (String.length newName) 32 then
              let old := name_of w user in
              let renamed on pn :=
                let '(log, room, t) :=
                  Room.addLog "name_changed"
                    (JS.show old +:+ " changed name to " +:+ newName) on (tick w) in
                {| world := {| rooms := <[roomId := room]> (rooms w);
                               socket_rooms := socket_rooms w;
                               proto_name := pn; tick := t |};
                   emits := [ mkEmit (ToRoom roomId) (chat_log log);
                              mkEmit (ToRoom roomId)
                                (room_user_list (Room.userList room)) ];
                   reply := Some Ok |} in
              match Room.changeUsername (proto_name w) userId newName room with
              | Room.Renamed room => renamed room (proto_name w)
              | Room.ProtoNamed n => renamed room (Some n)
              | Room.TypeError => mkOutcome w [] (Some (Fail None))
              end
            else mkOutcome w [] (Some (Fail (Some "invalid_name")))
          else
            let '(id, t) := uuidv4 (tick w) in
            let '(time, t) := now t in
            let '(_, room, t) :=
              Room.addLog "chat" (JS.show (name_of w user) +:+ ": " +:+ text) room t in
            {| world := with_room w roomId room t;
               emits := [ mkEmit (ToRoom roomId)
                            (chat_message id userId (name_of w user) text time) ];
               reply := Some Ok |}
      end
  end.

(** The branches of [socket.on('host:action')] once the permission check
    has passed; an unrecognised action changes nothing. *)
Definition host_branch (roomId action : string) (time : option Q)
    (room : Room.t) : Draw (Room.t * list Emit) :=
  let current := Playback.time (Room.playbackState room) in
  let nullish := match time with Some x => Some x | None => current end in
  if String.eqb action "play" then
    let room := Room.with_playbackState room (Playback.mk true nullish) in
    let* (log, room) :=
      Room.addLog "video_play" ("Host played at " +:+ formatTime nullish) room in
    ret (room, [ mkEmit (ToRoom roomId) (host_play nullish log) ])
  else if String.eqb action "pause" then
    let room := Room.with_playbackState room (Playback.mk false nullish) in
    let* (log, room) :=
      Room.addLog "video_pause" ("Host paused at " +:+ formatTime nullish) room in
    ret (room, [ mkEmit (ToRoom roomId) (host_pause nullish log) ])
  else if String.eqb action "seek" then
    let room :=
      Room.with_playbackState room
        (Playback.mk (Playback.playing (Room.playbackState room)) time) in
    let* (log, room) :=
      Room.addLog "video_seek" ("Host seeked to " +:+ formatTime time) room in
    ret (room, [ mkEmit (ToRoom roomId) (host_seek time log) ])
  else ret (room, []).

(** [socket.on('host:action')] *)
Definition on_host_action (roomId userId action : string) (time : option Q)
    (w : World) : Outcome :=
  match rooms w !! roomId with
  | None => mkOutcome w [] (Some (Fail (Some "room_not_found")))
  | Some room =>
      if bool_decide (Room.hostId room ≠ Some userId) then
        mkOutcome w [] (Some (Fail (Some "not_host")))
      else
        let '(room, out, t) := host_branch roomId action time room (tick w) in
        mkOutcome (with_room w roomId room t) out (Some Ok)
  end.

(** [socket.on('host:take')] *)
Definition on_host_take (roomId userId : string) (w : World) : Outcome :=
  match rooms w !! roomId with
  | None => mkOutcome w [] (Some (Fail (Some "room_not_found")))
  | Some room =>
      match JS.found (Room.getUser (proto_name w) room userId) with
      | None => mkOutcome w [] (Some (Fail (Some "user_not_found")))
      | Some user =>
          let previousHostId := Room.hostId room in
          let room := Room.setHost userId room in
          let previous :=
            match previousHostId with
            | Some p =>
                if JS.truthy p then
                  match Room.getUser (proto_name w) room p with
                  | Some q =>
                      match name_of w q with
                      | Some n => if JS.truthy n then n else p
                      | None => p
                      end
                  | None => p
                  end
                else "none"
            | None => "none"
            end in
          let '(log, room, t) :=
            Room.addLog "host_changed"
              (JS.show (name_of w user) +:+ " took host control (previous host: "
                 +:+ previous +:+ ")") room (tick w) in
          mkOutcome (with_room w roomId room t)
            [ mkEmit (ToRoom roomId) (host_changed userId log);
              mkEmit (ToRoom roomId) (room_user_list (Room.userList room)) ]
            (Some Ok)
      end
  end.

(** The body of the [forEach] in [socket.on('disconnecting')]: the
    departure of the socket from one of its rooms. *)
Definition leave_room (sock roomId : string) (w : World) : World * list Emit :=
  match rooms w !! roomId with
  | None => (w, [])
  | Some room =>
      match Room.getUserBySocket room sock with
      | None => (w, [])
      | Some user =>
          let room := Room.removeUser (User.id user) room in
          let '(log, room, t) :=
            Room.addLog "user_left" (User.name user +:+ " left") room (tick w) in
          let left :=
            [ mkEmit (ToRoom roomId) (room_user_left (User.id user) log);
              mkEmit (ToRoom roomId) (room_user_list (Room.userList room)) ] in
          if bool_decide (Room.hostId room = Some (User.id user)) then
            match Room.anyUser room with
            | Some nextUser =>
                let room := Room.setHost (User.id nextUser) room in
                let '(hostLog, room, t) :=
                  Room.addLog "host_assigned"
                    (User.name nextUser +:+ " became host after disconnect")
                    room t in
                (with_room w roomId room t,
                 left ++
                 [ mkEmit (ToRoom roomId) (host_changed (User.id nextUser) hostLog);
                   mkEmit (ToRoom roomId) (room_user_list (Room.userList room)) ])
            | None => (with_room w roomId (Room.with_hostId room None) t, left)
            end
          else (with_room w roomId room t, left)
      end
  end.

(** [socket.on('disconnecting')]: every room of [socket.rooms] but the
    socket's own; the socket is gone afterwards. *)
Definition on_disconnecting (sock : string) (w : World) : Outcome :=
  let joinedRooms :=
    filter (λ r, r ≠ sock) (default [] (socket_rooms w !! sock)) in
  let '(w, out) :=
    fold_left
      (λ acc roomId,
         let '(w, out) := leave_room sock roomId acc.1 in (w, acc.2 ++ out))
      joinedRooms (w, []) in
  {| world := {| rooms := rooms w; socket_rooms := delete sock (socket_rooms w);
                 proto_name := proto_name w; tick := tick w |};
     emits := out; reply := None |}.

(** The room part of [app.post('/upload')], run once the file is stored
    and its metadata built; the answer goes to the HTTP client. *)
Definition on_upload (roomId : string) (meta : Video.t) (w : World) : Outcome :=
  if JS.truthy roomId then
    match rooms w !! roomId with
    | Some room =>
        let room := Room.with_video room (Some meta) in
        let '(_, room, t) :=
          Room.addLog "video_uploaded" (Video.filename meta +:+ " uploaded")
            room (tick w) in
        mkOutcome (with_room w roomId room t)
          [ mkEmit (ToRoom roomId) (video_uploaded meta (last (Room.logs room))) ]
          None
    | None => mkOutcome w [] None
    end
  else mkOutcome w [] None.

(** ** Runs of the coordinator *)

Inductive Event :=
| RoomJoin (sock roomId : string) (username : option string)
| ChatMessage (roomId userId text : string)
| HostAction (roomId userId action : string) (time : option Q)
| HostTake (roomId userId : string)
| Disconnecting (sock : string)
| Uploaded (roomId : string) (meta : Video.t).

Definition handle (e : Event) (w : World) : Outcome :=
  match e with
  | RoomJoin sock roomId username => on_room_join sock roomId username w
  | ChatMessage roomId userId text => on_chat_message roomId userId text w
  | HostAction roomId userId action time =>
      on_host_action roomId userId action time w
  | HostTake roomId userId => on_host_take roomId userId w
  | Disconnecting sock => on_disconnecting sock w
  | Uploaded roomId meta => on_upload roomId meta w
  end.

Definition step (w : World) (e : Event) : World := world (handle e w).

(** Each event is handled to completion before the next one. *)
Definition run (w : World) (es : list Event) : World := fold_left step es w.

End Handlers.

(** A sequence of [addLog] calls on one room, with the entries it creates. *)
Fixpoint addLogs `{Runtime} (entries : list (string * string)) (r : Room.t)
  : Draw (list Log.t * Room.t) :=
  match entries with
  | [] => ret ([], r)
  | (type, text) :: rest =>
      let* (log, r) := Room.addLog type text r in
      let* (more, r) := addLogs rest r in
      ret (log :: more, r)
  end.

(** A runtime to run the scenarios below on. *)
Definition sample_runtime : Runtime :=
  {| entropy := λ n, (N.of_nat n * 7919 + 17)%N;
     clock := λ n, "2024-01-01T00:00:" +:+ JS.show_int (Z.of_nat n);
     random53 := λ n, (N.of_nat n * 1234567891234)%N;
     formatTime := λ _, "00:00" |}.

(** The placeholder name of [addUser]: [Guest-] and a number from 100 to 999. *)
Definition placeholder (n : string) : Prop :=
  ∃ z : Z, (100 ≤ z ≤ 999)%Z ∧ String.length (JS.show_int z) = 3
           ∧ n = "Guest-" +:+ JS.show_int z.

(** [username || placeholder] *)
Definition joined_name (username : option string) (n : string) : Prop :=
  match username with
  | Some s => if JS.truthy s then n = s else placeholder n
  | None => placeholder n
  end.

(** Two guests in the room [abc], the first of them host. *)
Definition sample_world : World :=
  @run sample_runtime init
    [ RoomJoin "s1" "abc" (Some "Ann"); RoomJoin "s2" "abc" (Some "Bea") ].

Definition sample_room : Room.t :=
  default (Room.new "abc") (rooms sample_world !! "abc").

Definition sample_host : User.t :=
  User.mk "11000000-0000-4000-8000-000000000000" "Ann" "s1" "2024-01-01T00:00:1".

Definition sample_guest : User.t :=
  User.mk "ba9b0000-0000-4000-8000-000000000000" "Bea" "s2" "2024-01-01T00:00:7".

Definition sample_video : Video.t :=
  Video.mk "clip.mp4" "1700000000000-clip.mp4" 1024 "/uploads/1700000000000-clip.mp4"
    "2024-01-01T00:00:9".

(** ** How one handler run changes one room *)

(** The playback state a [host:action] of the host leaves. *)
Definition played (action : string) (time : option Q) (pb : Playback.t)
  : Playback.t :=
  let nullish := match time with Some x => Some x | None => Playback.time pb end in
  if String.eqb action "play" then Playback.mk true nullish
  else if String.eqb action "pause" then Playback.mk false nullish
  else if String.eqb action "seek" then Playback.mk (Playback.playing pb) time
  else pb.

Inductive Change :=
| Joins (sock : string) (username : option string) (u : User.t)
| Renames (userId newName : string) (u : User.t)
| Plays (userId action : string) (time : option Q)
| TakesHost (userId : string)
| Leaves (sock : string) (u : User.t)
| SetsVideo (v : Video.t)
| OnlyLogs.

(** [changes c r r']: the room [r] has become [r'] by [c].  The id stays,
    the log stays within its bound, and the other fields are as listed. *)
Definition changes (c : Change) (r r' : Room.t) : Prop :=
  Room.id r' = Room.id r
  ∧ (length (Room.logs r) ≤ 500 → length (Room.logs r') ≤ 500)
  ∧ match c with
    | Joins sock username u =>
        User.socketId u = sock
        ∧ joined_name username (User.name u)
        ∧ Room.users r' = Room.put u (Room.users r)
        ∧ Room.hostId r'
          = (if Room.no_host r then Some (User.id u) else Room.hostId r)
        ∧ Room.video r' = Room.video r
        ∧ Room.playbackState r' = Room.playbackState r
    | Renames userId newName u =>
        Room.own userId (Room.users r) = Some u
        ∧ Room.users r' = Room.put (Room.rename newName u) (Room.users r)
        ∧ Room.hostId r' = Room.hostId r
        ∧ Room.video r' = Room.video r
        ∧ Room.playbackState r' = Room.playbackState r
    | Plays userId action time =>
        Room.hostId r = Some userId
        ∧ Room.playbackState r' = played action time (Room.playbackState r)
        ∧ Room.users r' = Room.users r
        ∧ Room.hostId r' = Room.hostId r
        ∧ Room.video r' = Room.video r
    | TakesHost userId =>
        (∃ pn, is_Some (JS.found (Room.getUser pn r userId)))
        ∧ Room.hostId r' = Some userId
        ∧ Room.users r' = Room.users r
        ∧ Room.video r' = Room.video r
        ∧ Room.playbackState r' = Room.playbackState r
    | Leaves sock u =>
        Room.getUserBySocket r sock = Some u
        ∧ Room.users r' = Room.del (User.id u) (Room.users r)
        ∧ Room.hostId r'
          = (if bool_decide (Room.hostId r = Some (User.id u))
             then User.id <$> head (Room.users r') else Room.hostId r)
        ∧ Room.video r' = Room.video r
        ∧ Room.playbackState r' = Room.playbackState r
    | SetsVideo v =>
        Room.video r' = Some v
        ∧ Room.users r' = Room.users r
        ∧ Room.hostId r' = Room.hostId r
        ∧ Room.playbackState r' = Room.playbackState r
    | OnlyLogs =>
        Room.users r' = Room.users r
        ∧ Room.hostId r' = Room.hostId r
        ∧ Room.video r' = Room.video r
        ∧ Room.playbackState r' = Room.playbackState r
    end.

(** Which changes an event can cause. *)
Definition caused_by (e : Event) (c : Change) : Prop :=
  match e, c with
  | RoomJoin sock _ username, Joins sock' username' _ =>
      sock' = sock ∧ username' = username
  | ChatMessage _ userId _, Renames userId' _ _ => userId' = userId
  | ChatMessage _ _ _, OnlyLogs => True
  | HostAction _ userId action time, Plays userId' action' time' =>
      userId' = userId ∧ action' = action ∧ time' = time
  | HostTake _ userId, TakesHost userId' => userId' = userId
  | Disconnecting sock, Leaves sock' _ => sock' = sock
  | Uploaded _ meta, SetsVideo v => v = meta
  | _, _ => False
  end.

(** The room an event works on: the one the directory holds under the
    event's [roomId] (any joined room for a disconnect), or, for a join, a
    room just created. *)
Definition source (e : Event) (w : World) (k : string) (r : Room.t) : Prop :=
  (rooms w !! k = Some r
   ∧ match e with
     | RoomJoin _ roomId _ | ChatMessage roomId _ _ | HostAction roomId _ _ _
     | HostTake roomId _ | Uploaded roomId _ => k = roomId
     | Disconnecting _ => True
     end)
  ∨ (r = Room.new k
     ∧ ∃ sock roomId username,
         e = RoomJoin sock roomId username ∧ rooms w !! roomId = None).

(** One handler run leaves the directory as it was, or replaces one room. *)
Definition evolves (e : Event) (w w' : World) : Prop :=
  rooms w' = rooms w
  ∨ ∃ k r r' c,
      rooms w' = <[k := r']> (rooms w)
      ∧ source e w k r ∧ changes c r r' ∧ caused_by e c.

(** A property of every room of the directory. *)
Definition rooms_all (I : Room.t → Prop) (w : World) : Prop :=
  ∀ k r, rooms w !! k = Some r → I r.

(** A condition on the events of a run, each taken in the state it meets. *)
Fixpoint admissible `{Runtime} (ok : World → Event → Prop) (w : World)
    (es : list Event) : Prop :=
  match es with
  | [] => True
  | e :: es' => ok w e ∧ admissible ok (step w e) es'
  end.

(** The departures of a socket from a list of rooms, one after the other. *)
Definition departures `{Runtime} (sock : string) (joined : list string)
    (w : World) : World :=
  fold_left (λ w roomId, (leave_room sock roomId w).1) joined w.

(** ** Invariants of a room, and the runs they are stated for *)

(** The object [users] has one property per key, and the log is bounded. *)
Definition well_formed (r : Room.t) : Prop :=
  NoDup (map User.id (Room.users r)) ∧ length (Room.logs r) ≤ 500.

(** [hostId] is null or the id of a member. *)
Definition host_present (r : Room.t) : Prop :=
  ∀ h, Room.hostId r = Some h → is_Some (Room.own h (Room.users r)).

(** No two members of the room are owned by the same socket. *)
Definition sockets_unique (r : Room.t) : Prop :=
  NoDup (map User.socketId (Room.users r)).


Definition any_event (w : World) (e : Event) : Prop := True.

(** [host:take] is sent with an id that names no property of
    [Object.prototype], nor [name], which a rename under the id [__proto__]
    adds to it. *)
Definition takes_by_id (w : World) (e : Event) : Prop :=
  match e with
  | HostTake _ userId => JS.is_inherited userId = false ∧ userId ≠ "name"
  | _ => True
  end.

(** A socket joins a room only while it owns no member of that room. *)
Definition joins_once (w : World) (e : Event) : Prop :=
  match e with
  | RoomJoin sock roomId _ =>
      rooms w !! roomId ≫= (λ room, Room.getUserBySocket room sock) = None
  | _ => True
  end.


(** [socket.rooms] is a set: no room is listed twice. *)
Definition socket_rooms_distinct (w : World) : Prop :=
  ∀ sock joined, socket_rooms w !! sock = Some joined → NoDup joined.

(** A property of every room of the directory and the key it is stored under. *)
Definition rooms_keyed (I : string → Room.t → Prop) (w : World) : Prop :=
  ∀ k r, rooms w !! k = Some r → I k r.

(** A room is stored under its own id, and that id is not empty. *)
Definition filed (k : string) (r : Room.t) : Prop :=
  Room.id r = k ∧ JS.truthy k = true.

(** The ids of the members are not empty, and a room with members has a
    host: [hostId] is a non-empty string. *)
Definition hosted (k : string) (r : Room.t) : Prop :=
  (∀ u, u ∈ Room.users r → JS.truthy (User.id u) = true)
  ∧ (Room.users r ≠ [] → Room.no_host r = false).

(** ** The logger of logger.js

    [this.store] is a plain object like [users]: a read of a room id that is
    no own key falls back to [Object.prototype]. *)

Module Logger.

(** An object with string properties, such as a log [{ type, text }]. *)
Abbreviation Fields := (gmap string string).

(** [this.store]: its own properties, roomId -> logs *)
Abbreviation t := (gmap string (list Fields)).

(** [constructor()] *)
Definition new : t := ∅.

(** How [push] completes: it returns, or [this.store[roomId].push] is not a
    function. *)
Inductive Pushed :=
| Stored (store : t)
| NotAFunction.

Section Methods.
Context `{Runtime}.

(** [push(roomId, log)], with [pn] the value of [Object.prototype.name]
    at the time of the call.  A [roomId] that names a truthy property of
    [Object.prototype] is found without being an array; the argument
    [{ ...log, time }] is built before the call fails. *)
Definition push (pn : option string) (roomId : string) (log : Fields) (store : t)
  : Draw Pushed :=
  let store :=
    match store !! roomId with
    | Some _ => store
    | None =>
        if JS.is_inherited_in pn roomId then store else <[roomId := []]> store
    end in
  let* time := now in
  match store !! roomId with
  | Some logs =>
      let pushed := logs ++ [<["time" := time]> log] in
      ret (Stored (<[roomId := if Nat.ltb 1000 (length pushed)
                               then tail pushed else pushed]> store))
  | None => ret NotAFunction
  end.
End Methods.

(** [get(roomId)]: [this.store[roomId] || []] *)
Definition get (pn : option string) (roomId : string) (store : t)
  : JS.Property (list Fields) :=
  match store !! roomId with
  | Some logs => JS.Own logs
  | None =>
      match JS.found (JS.inherited_in pn roomId) with
      | Some inherited => inherited
      | None => JS.Own []
      end
  end.

(** The store a call of [push] leaves, whether it returned or threw. *)
Definition after (p : Pushed) (store : t) : t :=
  match p with
  | Stored store' => store'
  | NotAFunction => store
  end.

End Logger.

(** A sequence of [push] calls. *)
Fixpoint pushes `{Runtime} (pn : option string)
    (ps : list (string * Logger.Fields)) (store : Logger.t) : Draw Logger.t :=
  match ps with
  | [] => ret store
  | (roomId, log) :: rest =>
      let* p := Logger.push pn roomId log store in
      pushes pn rest (Logger.after p store)
  end.

(** The entries a sequence of [push] calls makes for the room [k], the
    first of them at the draw [t]. *)
Fixpoint stamped `{Runtime} (t : nat) (ps : list (string * Logger.Fields))
    (k : string) : list Logger.Fields :=
  match ps with
  | [] => []
  | (roomId, log) :: rest =>
      (if String.eqb roomId k then [<["time" := clock t]> log] else [])
      ++ stamped (S t) rest k
  end.

(** What the store and the pushes made so far for a room have to do with
    each other. *)
Definition kept (pn : option string) (store : Logger.t) (k : string)
    (made : list Logger.Fields) : Prop :=
  if JS.is_inherited_in pn k then store !! k = None
  else (store !! k = None ∧ made = [])
       ∨ (store !! k = Some (last_n 1000 made) ∧ made ≠ []).

(** ** The Home page: the room id it creates *)

Module Home.

(** [s.split(sep)[0]] for a separator of one character: what precedes its
    first occurrence, the whole string when there is none. *)
Fixpoint before (sep : ascii) (s : string) : string :=
  match s with
  | EmptyString => EmptyString
  | String c r => if Ascii.eqb c sep then EmptyString else String c (before sep r)
  end.

Section Methods.
Context `{Runtime}.

(** [createRoom()]: the id in the path it navigates to. *)
Definition createRoom : Draw string :=
  let* id := uuidv4 in ret (before "-" id).
End Methods.

End Home.

(** A lower-case hexadecimal digit. *)
Definition is_hex (c : ascii) : bool :=
  existsb (Ascii.eqb c) (list_ascii_of_string "0123456789abcdef").

(** ** The page of a room: the state it keeps from what it is sent *)

Module Client.

(** An entry of the page's [users]: [{ id, name }] from a member list, or the
    whole user object of [room:user_joined]. *)
Inductive Member :=
| Listed (id name : string)
| Whole (user : User.t).

Definition member_id (m : Member) : string :=
  match m with
  | Listed id _ => id
  | Whole user => User.id user
  end.

(** The state hooks [users], [hostId], [video] and [playbackState] of the
    Room page (its [user] and [logs] hooks are left out). *)
Record View := mkView {
  users : list Member;
  hostId : option string;
  video : option Video.t;
  playbackState : Playback.t
}.


(** The [socket.on] handlers of the Room page. *)
Definition receive (v : View) (m : Message) : View :=
  match m with
  | room_state _ us host vid _ pb =>
      {| users := map (λ u, Listed u.1 u.2) us; hostId := host; video := vid;
         playbackState := pb |}
  | room_user_list us =>
      {| users := map (λ u, Listed u.1 u.2) us; hostId := hostId v;
         video := video v; playbackState := playbackState v |}
  | room_user_joined user _ =>
      {| users := users v ++ [Whole user]; hostId := hostId v;
         video := video v; playbackState := playbackState v |}
  | room_user_left userId _ =>
      {| users := List.filter (λ x, negb (String.eqb (member_id x) userId)) (users v);
         hostId := hostId v; video := video v;
         playbackState := playbackState v |}
  | chat_message _ _ _ _ _ => v
  | chat_log _ => v
  | video_uploaded vid _ =>
      {| users := users v; hostId := hostId v; video := Some vid;
         playbackState := playbackState v |}
  | host_play time _ =>
      {| users := users v; hostId := hostId v; video := video v;
         playbackState := Playback.mk true time |}
  | host_pause time _ =>
      {| users := users v; hostId := hostId v; video := video v;
         playbackState := Playback.mk false time |}
  | host_seek time _ =>
      {| users := users v; hostId := hostId v; video := video v;
         playbackState := Playback.mk (Playback.playing (playbackState v)) time |}
  | host_changed host _ =>
      {| users := users v; hostId := Some host; video := video v;
         playbackState := playbackState v |}
  end.

End Client.

(** The view a page has when it shows the room as the server holds it. *)
Definition snapshot (r : Room.t) : Client.View :=
  {| Client.users := map (λ u, Client.Listed u.1 u.2) (Room.userList r);
     Client.hostId := Room.hostId r;
     Client.video := Room.video r;
     Client.playbackState := Room.playbackState r |}.




(** The same for a socket that is in the room [roomId] and in no other room
    an emission is made to. *)
Definition addressed (s roomId : string) (e : Emit) : bool :=
  match target e with
  | ToSocket sock => String.eqb sock s
  | ToRoom r => String.eqb r roomId
  | ToRoomExcept r sock => String.eqb r roomId && negb (String.eqb sock s)
  end.

Definition delivered (s roomId : string) (out : list Emit) (v : Client.View)
  : Client.View :=
  fold_left Client.receive (map message (List.filter (addressed s roomId) out)) v.





(** * Properties *)

(** ** The activity log *)

Section ActivityLog.
Context `{Runtime}.

Lemma last_n_app_last_n {A} (n : nat) (a b : list A) :
  last_n n (last_n n a ++ b) = last_n n (a ++ b).
Proof.
  unfold last_n. rewrite !length_app, length_drop.
  destruct (decide (length a ≤ n)) as [Hle|Hgt].
  - replace (length a - n) with 0 by lia. simpl. f_equal. lia.
  - replace (length a - (length a - n) + length b - n) with (length b) by lia.
    replace (length a + length b - n) with ((length a - n) + length b) by lia.
    rewrite <- drop_drop. f_equal. rewrite drop_app_le; [done | lia].
Qed.

Lemma addLog_logs type text r t :
  length (Room.logs r) ≤ 500 →
  Room.logs (Room.addLog type text r t).1.2
  = last_n 500 (Room.logs r ++ [(Room.addLog type text r t).1.1]).
Proof.
  intros Hlen. unfold Room.addLog, bind, uuidv4, now, ret, last_n. simpl.
  rewrite length_app. simpl.
  destruct (Nat.ltb_spec 500 (length (Room.logs r) + 1)) as [Hgt|Hle].
  - replace (length (Room.logs r) + 1 - 500) with 1 by lia.
    by destruct (Room.logs r ++ _).
  - by replace (length (Room.logs r) + 1 - 500) with 0 by lia.
Qed.

Lemma length_last_n {A} (n : nat) (l : list A) : length (last_n n l) ≤ n.
Proof. unfold last_n. rewrite length_drop. lia. Qed.

Lemma addLog_created type text r t :
  let log := (Room.addLog type text r t).1.1 in
  Log.type log = (if JS.truthy type then type else "info") ∧ Log.text log = text.
Proof. done. Qed.

Lemma addLogs_cons type text rest r t :
  addLogs ((type, text) :: rest) r t
  = let '(log, r1, t1) := Room.addLog type text r t in
    let '(more, r2, t2) := addLogs rest r1 t1 in
    (log :: more, r2, t2).
Proof.
  cbn [addLogs]. unfold bind at 1.
  destruct (Room.addLog type text r t) as [[log r1] t1].
  unfold bind at 1. by destruct (addLogs rest r1 t1) as [[more r2] t2].
Qed.

(** C8. From a log of at most 500 entries, any sequence of [addLog] calls
    leaves the last 500 of the old entries followed by the created ones,
    in that order: the log never holds more than 500 entries, every entry
    is added at the tail and the oldest entries leave first. *)
Theorem activity_log_bounded_fifo (entries : list (string * string))
    (r : Room.t) (t : nat) :
  length (Room.logs r) ≤ 500 →
  let created := (addLogs entries r t).1.1 in
  let r' := (addLogs entries r t).1.2 in
  Room.logs r' = last_n 500 (Room.logs r ++ created)
  ∧ length (Room.logs r') ≤ 500
  ∧ map (λ l, (Log.type l, Log.text l)) created
    = map (λ e, (if JS.truthy e.1 then e.1 else "info", e.2)) entries.
Proof.
  revert r t. induction entries as [|[type text] rest IH]; intros r t Hlen.
  - simpl. rewrite app_nil_r. unfold last_n.
    replace (length (Room.logs r) - 500) with 0 by lia. done.
  - rewrite addLogs_cons.
    pose proof (addLog_logs type text r t Hlen) as Hone.
    destruct (Room.addLog type text r t) as [[log r1] t1] eqn:Eone.
    simpl in Hone.
    assert (Hlen1 : length (Room.logs r1) ≤ 500)
      by (rewrite Hone; apply length_last_n).
    specialize (IH r1 t1 Hlen1).
    destruct (addLogs rest r1 t1) as [[more r2] t2] eqn:Erest.
    simpl in IH. destruct IH as (Hlogs & Hbound & Hmap).
    cbn [fst snd]. split_and!.
    + rewrite Hlogs, Hone, last_n_app_last_n, <- app_assoc. done.
    + done.
    + cbn [map]. rewrite Hmap. f_equal.
      replace log with (Room.addLog type text r t).1.1 by (by rewrite Eone).
      done.
Qed.
End ActivityLog.

Section ActivityLogScenario.
#[local] Existing Instance sample_runtime.

Lemma activity_log_bounded_fifo_witness :
  let entries := [("chat", "one"); ("", "two")] in
  let created := (addLogs entries (Room.new "abc") 0).1.1 in
  let r' := (addLogs entries (Room.new "abc") 0).1.2 in
  Room.logs r' = last_n 500 (Room.logs (Room.new "abc") ++ created)
  ∧ length (Room.logs r') ≤ 500
  ∧ map (λ l, (Log.type l, Log.text l)) created
    = map (λ e, (if JS.truthy e.1 then e.1 else "info", e.2)) entries.
Proof.
  apply (activity_log_bounded_fifo [("chat", "one"); ("", "two")] (Room.new "abc") 0).
  simpl. lia.
Defined.
End ActivityLogScenario.

(** ** Identifiers *)

Section Identifiers.
Context `{Runtime}.

Lemma length_append (a b : string) :
  String.length (a +:+ b) = String.length a + String.length b.
Proof. induction a as [|c a IH]; simpl; [done | by rewrite IH]. Qed.

Lemma length_string_of_list_ascii (l : list ascii) :
  String.length (string_of_list_ascii l) = length l.
Proof. induction l as [|c l IH]; simpl; [done | by rewrite IH]. Qed.

Lemma nibbles_length (k : nat) (n : N) : length (JS.nibbles k n) = k.
Proof. revert n. induction k as [|k IH]; intros n; simpl; [done | by rewrite IH]. Qed.

(** An id made by [uuidv4()] has 36 characters. *)
Lemma uuid_string_length (bits : N) : String.length (JS.uuid_string bits) = 36.
Proof.
  unfold JS.uuid_string.
  rewrite !length_append, !length_string_of_list_ascii, !length_map,
    !length_take, !length_drop, nibbles_length.
  reflexivity.
Qed.

Lemma inherited_length (k : string) :
  JS.is_inherited k = true → String.length k ≤ 20.
Proof.
  unfold JS.is_inherited, JS.inherited.
  destruct (String.eqb_spec k "__proto__") as [->|_]; [simpl; lia|].
  destruct (find _ JS.Object_prototype_functions) as [p|] eqn:Hfind; [|done].
  intros _. apply find_some in Hfind as [Hin Heq].
  apply String.eqb_eq in Heq as <-.
  assert (Hall : forallb (λ q, Nat.leb (String.length q.1) 20)
                   JS.Object_prototype_functions = true) by reflexivity.
  rewrite forallb_forall in Hall. by apply Nat.leb_le, Hall.
Qed.

(** Hence it is a non-empty key that [Object.prototype] does not define,
    and writing [users[id]] makes an own property. *)
Lemma uuid_string_own_key (bits : N) :
  JS.is_inherited (JS.uuid_string bits) = false
  ∧ JS.truthy (JS.uuid_string bits) = true.
Proof.
  pose proof (uuid_string_length bits) as Hlen. split.
  - destruct (JS.is_inherited _) eqn:Hinh; [|done].
    apply inherited_length in Hinh. lia.
  - by destruct (JS.uuid_string bits).
Qed.

Lemma uuidv4_own_key (t : nat) : JS.is_inherited (uuidv4 t).1 = false.
Proof. apply uuid_string_own_key. Qed.
End Identifiers.

(** ** The object [users] *)

Section Users.
Implicit Types (u v : User.t) (us : list User.t) (k : string).

Lemma own_Some k us u : Room.own k us = Some u → User.id u = k ∧ u ∈ us.
Proof.
  unfold Room.own. intros Hfind. split.
  - apply find_some in Hfind as [_ Heq]. by apply String.eqb_eq in Heq.
  - apply find_some in Hfind as [Hin _]. by apply list_elem_of_In.
Qed.

Lemma own_None k us : Room.own k us = None ↔ k ∉ map User.id us.
Proof.
  unfold Room.own. induction us as [|v vs IH]; simpl.
  - split; [intros _; apply not_elem_of_nil | done].
  - rewrite not_elem_of_cons. destruct (String.eqb_spec (User.id v) k).
    + split; [done | intros [? _]; congruence].
    + rewrite IH. split; [by intros ? | by intros [_ ?]].
Qed.

Lemma own_is_Some k us : is_Some (Room.own k us) ↔ k ∈ map User.id us.
Proof.
  destruct (Room.own k us) eqn:E.
  - split; [intros _ | by eauto]. apply own_Some in E as [<- Hin].
    by apply list_elem_of_fmap_2.
  - apply own_None in E. split; [by intros [? ?] | done].
Qed.

Lemma own_put_eq u us : Room.own (User.id u) (Room.put u us) = Some u.
Proof.
  unfold Room.own. induction us as [|v vs IH]; simpl.
  - by rewrite String.eqb_refl.
  - destruct (String.eqb_spec (User.id v) (User.id u)) as [Heq|Hne]; simpl.
    + by rewrite String.eqb_refl.
    + by destruct (String.eqb_spec (User.id v) (User.id u)).
Qed.

Lemma own_put_ne k u us : k ≠ User.id u → Room.own k (Room.put u us) = Room.own k us.
Proof.
  intros Hne. unfold Room.own. induction us as [|v vs IH]; simpl.
  - by destruct (String.eqb_spec (User.id u) k).
  - destruct (String.eqb_spec (User.id v) (User.id u)) as [Heq|Hvu]; simpl.
    + destruct (String.eqb_spec (User.id u) k); [congruence|].
      by destruct (String.eqb_spec (User.id v) k); [congruence|].
    + by destruct (String.eqb_spec (User.id v) k).
Qed.

(** Writing a property keeps the keys, or adds the new key last. *)
Lemma keys_put u us :
  map User.id (Room.put u us)
  = if bool_decide (User.id u ∈ map User.id us) then map User.id us
    else map User.id us ++ [User.id u].
Proof.
  induction us as [|v vs IH]; cbn [map Room.put].
  - case_bool_decide as Hin; [by apply elem_of_nil in Hin | done].
  - destruct (String.eqb_spec (User.id v) (User.id u)) as [Heq|Hne]; cbn [map].
    + clear IH. case_bool_decide as Hin; [congruence|].
      exfalso. apply Hin. rewrite Heq. left.
    + rewrite IH. case_bool_decide as Hin; case_bool_decide as Hin'; try done.
      * exfalso. apply Hin'. by right.
      * apply elem_of_cons in Hin' as [?|?]; [congruence | done].
Qed.

Lemma NoDup_keys_put u us :
  NoDup (map User.id us) → NoDup (map User.id (Room.put u us)).
Proof.
  intros Hnd. rewrite keys_put. case_bool_decide as Hin; [done|].
  apply NoDup_app. split_and!; [done | | apply NoDup_singleton].
  intros k Hk ->%list_elem_of_singleton. done.
Qed.

Lemma elem_of_put v u us : v ∈ Room.put u us → v = u ∨ v ∈ us.
Proof.
  induction us as [|x xs IH]; simpl.
  - intros ->%list_elem_of_singleton. by left.
  - destruct (String.eqb (User.id x) (User.id u)).
    + intros [->|Hin]%elem_of_cons; [by left | right; by right].
    + intros [->|Hin]%elem_of_cons; [right; by left|].
      destruct (IH Hin) as [->|Hv]; [by left | right; by right].
Qed.
Lemma NoDup_keys_inj (us : list User.t) (m n : User.t) :
  NoDup (map User.id us) → m ∈ us → n ∈ us → User.id m = User.id n → m = n.
Proof.
  induction us as [|v vs IH]; [by intros _ ?%elem_of_nil|].
  cbn [map]. intros [Hv Hnd]%NoDup_cons Hm Hn Heq.
  apply elem_of_cons in Hm as [->|Hm]; apply elem_of_cons in Hn as [->|Hn].
  - done.
  - exfalso. apply Hv. rewrite Heq. by apply list_elem_of_fmap_2.
  - exfalso. apply Hv. rewrite <- Heq. by apply list_elem_of_fmap_2.
  - by apply IH.
Qed.
End Users.

Section UsersDelete.
Implicit Types (u v : User.t) (us : list User.t) (k : string).

Lemma elem_of_del v k us : v ∈ Room.del k us ↔ v ∈ us ∧ User.id v ≠ k.
Proof. unfold Room.del. rewrite list_elem_of_filter. tauto. Qed.

Lemma keys_del k us :
  map User.id (Room.del k us) = filter (λ i, i ≠ k) (map User.id us).
Proof.
  unfold Room.del. induction us as [|v vs IH]; [done|].
  cbn [map]. rewrite !filter_cons. cbn [map].
  destruct (decide (User.id v ≠ k)); cbn [map]; by rewrite IH.
Qed.

Lemma NoDup_keys_del k us :
  NoDup (map User.id us) → NoDup (map User.id (Room.del k us)).
Proof. intros Hnd. rewrite keys_del. by apply NoDup_filter. Qed.

Lemma own_del_ne k k' us : k' ≠ k → Room.own k' (Room.del k us) = Room.own k' us.
Proof.
  intros Hne. unfold Room.own, Room.del. induction us as [|v vs IH]; [done|].
  rewrite filter_cons. cbn [find].
  destruct (decide (User.id v ≠ k)) as [Hv|Hv]; cbn [find].
  - by rewrite IH.
  - apply dec_stable in Hv. rewrite IH.
    destruct (String.eqb_spec (User.id v) k'); [congruence | done].
Qed.

Lemma own_del_eq k us : Room.own k (Room.del k us) = None.
Proof.
  apply own_None. rewrite keys_del, list_elem_of_filter. by intros [? _].
Qed.
End UsersDelete.

(** ** What the methods of [Room] change *)

Section RoomMethods.
Context `{Runtime}.

Lemma last_tail_snoc {A} (l : list A) (x : A) :
  l ≠ [] → last (tail (l ++ [x])) = Some x.
Proof.
  destruct l as [|a l]; [done|]. intros _. simpl. apply last_snoc.
Qed.

Lemma addLog_inv type text r t log r' t' :
  Room.addLog type text r t = (log, r', t') →
  Room.id r' = Room.id r ∧ Room.users r' = Room.users r
  ∧ Room.hostId r' = Room.hostId r ∧ Room.video r' = Room.video r
  ∧ Room.playbackState r' = Room.playbackState r
  ∧ last (Room.logs r') = Some log
  ∧ Log.type log = (if JS.truthy type then type else "info")
  ∧ Log.text log = text
  ∧ (length (Room.logs r) ≤ 500 → length (Room.logs r') ≤ 500).
Proof.
  intros E. pose proof (addLog_logs type text r t) as Hlogs.
  rewrite E in Hlogs. cbn [fst snd] in Hlogs.
  revert E. unfold Room.addLog, bind, uuidv4, now, ret. intros [= <- <- <-].
  split_and!; try done.
  - cbn [Room.logs Room.with_logs]. case_match eqn:Hlt.
    + apply last_tail_snoc. intros Hnil. rewrite Hnil in Hlt. done.
    + apply last_snoc.
  - intros Hlen. rewrite Hlogs by done. apply length_last_n.
Qed.

Lemma random_guest_number_range t :
  (100 ≤ (random_guest_number t).1 ≤ 999)%Z.
Proof.
  unfold random_guest_number. cbn [fst].
  pose proof (N.mod_upper_bound (random53 t) (2 ^ 53)) as Hr.
  set (k := (random53 t mod 2 ^ 53)%N) in *.
  change (2 ^ 53)%N with 9007199254740992%N in Hr.
  change (2 ^ 53)%Z with 9007199254740992%Z.
  assert (0 ≤ Z.of_N k * 900 / 9007199254740992 < 900)%Z; [|lia].
  split.
  - apply Z.div_pos; lia.
  - apply Z.div_lt_upper_bound; lia.
Qed.

Lemma three_digits (z : Z) :
  (100 ≤ z ≤ 999)%Z → String.length (JS.show_int z) = 3.
Proof.
  intros Hz.
  assert (Hall : forallb (λ n, Nat.eqb (String.length (JS.show_int n)) 3)
                   (seqZ 100 900) = true) by (vm_compute; reflexivity).
  rewrite forallb_forall in Hall.
  apply Nat.eqb_eq, Hall, list_elem_of_In, elem_of_seqZ. lia.
Qed.

Lemma random_guest_placeholder t :
  placeholder ("Guest-" +:+ JS.show_int (random_guest_number t).1).
Proof.
  pose proof (random_guest_number_range t) as Hr.
  exists (random_guest_number t).1. split_and!; [lia | lia | | done].
  by apply three_digits.
Qed.

Lemma addUser_inv sock username r t u r' t' :
  Room.addUser sock username r t = (u, r', t') →
  r' = Room.with_users r (Room.put u (Room.users r))
  ∧ User.id u = JS.uuid_string (entropy t)
  ∧ User.socketId u = sock
  ∧ joined_name username (User.name u).
Proof.
  unfold Room.addUser, bind at 1, uuidv4.
  destruct username as [s|]; cbn [joined_name].
  - destruct (JS.truthy s).
    + unfold bind, ret, now. intros [= <- <- <-]. done.
    + unfold bind, ret, now.
      destruct (random_guest_number (S t)) as [z t1] eqn:Ez.
      intros [= <- <- <-]. split_and!; try done. cbn [User.name].
      replace z with (random_guest_number (S t)).1 by (by rewrite Ez).
      apply random_guest_placeholder.
  - unfold bind, ret, now.
    destruct (random_guest_number (S t)) as [z t1] eqn:Ez.
    intros [= <- <- <-]. split_and!; try done. cbn [User.name].
    replace z with (random_guest_number (S t)).1 by (by rewrite Ez).
    apply random_guest_placeholder.
Qed.
End RoomMethods.

(** ** Joining *)

Section Joining.
Context `{Runtime}.

Lemma join_room_inv sock roomId username r t r' out rep t' :
  join_room sock roomId username r t = (r', out, rep, t') →
  ∃ u, rep = OkUser u
       ∧ User.socketId u = sock
       ∧ joined_name username (User.name u)
       ∧ Room.users r' = Room.put u (Room.users r)
       ∧ Room.hostId r'
         = (if Room.no_host r then Some (User.id u) else Room.hostId r)
       ∧ Room.id r' = Room.id r
       ∧ Room.video r' = Room.video r
       ∧ Room.playbackState r' = Room.playbackState r
       ∧ (length (Room.logs r) ≤ 500 → length (Room.logs r') ≤ 500).
Proof.
  unfold join_room. unfold bind at 1.
  destruct (Room.addUser sock username r t) as [[u r1] t1] eqn:Euser.
  apply addUser_inv in Euser as (-> & Hid & Hsock & Hname).
  unfold bind at 1.
  change (Room.no_host (Room.with_users r (Room.put u (Room.users r))))
    with (Room.no_host r).
  destruct (Room.no_host r) eqn:Hhost.
  - unfold bind at 1.
    destruct (Room.addLog _ _ _ t1) as [[log r2] t2] eqn:Elog.
    apply addLog_inv in Elog as (Hi & Hu & Hh & Hv & Hp & _ & _ & _ & Hb).
    unfold ret at 1. unfold bind at 1.
    destruct (Room.addLog _ _ r2 t2) as [[log' r3] t3] eqn:Elog'.
    apply addLog_inv in Elog' as (Hi' & Hu' & Hh' & Hv' & Hp' & _ & _ & _ & Hb').
    unfold ret. intros [= <- <- <- <-]. exists u.
    split_and!;
      rewrite ?Hu', ?Hh', ?Hi', ?Hv', ?Hp', ?Hu, ?Hh, ?Hi, ?Hv, ?Hp; try done.
    intros Hlen. apply Hb', Hb, Hlen.
  - unfold ret at 1. unfold bind at 1.
    destruct (Room.addLog _ _ _ t1) as [[log r2] t2] eqn:Elog.
    apply addLog_inv in Elog as (Hi & Hu & Hh & Hv & Hp & _ & _ & _ & Hb).
    unfold ret. intros [= <- <- <- <-]. exists u.
    split_and!; rewrite ?Hu, ?Hh, ?Hi, ?Hv, ?Hp; done.
Qed.

(** C9, as the code has it.  Every join answers with the created member;
    the member is stored in the room under its id, is owned by the joining
    socket, and its name is the supplied username as it was sent when that
    is a non-empty string, and otherwise [Guest-] followed by a number
    from 100 to 999 (three digits). *)
Theorem join_name (sock roomId : string) (username : option string) (w : World) :
  ∃ u key room,
    reply (on_room_join sock roomId username w) = Some (OkUser u)
    ∧ rooms (world (on_room_join sock roomId username w)) !! key = Some room
    ∧ Room.own (User.id u) (Room.users room) = Some u
    ∧ User.socketId u = sock
    ∧ joined_name username (User.name u).
Proof.
  unfold on_room_join.
  destruct (rooms w !! roomId) as [room|] eqn:Hroom.
  - destruct (join_room sock roomId username room (tick w))
      as [[[r' out] rep] t'] eqn:Ejoin.
    apply join_room_inv in Ejoin as (u & -> & Hsock & Hname & Hus & _).
    exists u, roomId, r'. cbn [reply world rooms].
    rewrite lookup_insert_eq, Hus, own_put_eq. done.
  - destruct (Rooms.create roomId (rooms w) (tick w)) as [[room m] t0] eqn:Ecreate.
    destruct (join_room sock roomId username room t0)
      as [[[r' out] rep] t'] eqn:Ejoin.
    apply join_room_inv in Ejoin as (u & -> & Hsock & Hname & Hus & _).
    exists u, (Room.id room), r'. cbn [reply world rooms].
    rewrite lookup_insert_eq, Hus, own_put_eq. done.
Qed.
End Joining.

Section JoiningScenario.
#[local] Existing Instance sample_runtime.

(** C9, as stated, fails: a username with surrounding spaces is stored
    untrimmed. *)
Lemma join_keeps_surrounding_spaces :
  JS.truthy (JS.trim " Bob ") = true
  ∧ ∃ u, reply (on_room_join "s1" "abc" (Some " Bob ") init) = Some (OkUser u)
         ∧ User.name u = " Bob "
         ∧ User.name u ≠ JS.trim " Bob ".
Proof.
  split; [reflexivity|]. eexists. split_and!.
  - vm_compute. reflexivity.
  - reflexivity.
  - vm_compute. discriminate.
Qed.

(** Nor is a username of spaces only replaced by a placeholder. *)
Lemma join_keeps_blank_name :
  JS.trim "   " = ""
  ∧ ∃ u, reply (on_room_join "s1" "abc" (Some "   ") init) = Some (OkUser u)
         ∧ User.name u = "   ".
Proof.
  split; [reflexivity|]. eexists. split; [vm_compute; reflexivity | reflexivity].
Qed.
End JoiningScenario.

(** ** Playback commands *)

Section HostAction.
Context `{Runtime}.

(** C2. In an existing room, a [host:action] whose [userId] is not the
    room's [hostId] is answered [not_host]; the whole server state,
    playback state and log included, stays as it was and nothing is
    emitted. *)
Theorem host_action_not_host (w : World) (roomId userId action : string)
    (time : option Q) (room : Room.t) :
  rooms w !! roomId = Some room →
  Room.hostId room ≠ Some userId →
  on_host_action roomId userId action time w
  = mkOutcome w [] (Some (Fail (Some "not_host"))).
Proof.
  intros Hroom Hhost. unfold on_host_action. rewrite Hroom.
  by rewrite bool_decide_eq_true_2.
Qed.
End HostAction.

Section HostActionScenario.
#[local] Existing Instance sample_runtime.

Lemma host_action_not_host_witness :
  on_host_action "abc" "intruder" "seek" (Some 10%Q) sample_world
  = mkOutcome sample_world [] (Some (Fail (Some "not_host"))).
Proof.
  eapply host_action_not_host.
  - vm_compute. reflexivity.
  - vm_compute. discriminate.
Defined.
End HostActionScenario.

(** ** Chat and the rename command *)

Section Chat.
Context `{Runtime}.


Lemma getUser_own (pn : option string) (room : Room.t) (userId : string)
    (user : User.t) :
  Room.own userId (Room.users room) = Some user →
  Room.getUser pn room userId = Some (JS.Own user).
Proof. unfold Room.getUser. by intros ->. Qed.

Lemma found_inherited {A} (k : string) :
  JS.found (@JS.inherited A k) = JS.inherited k.
Proof. unfold JS.inherited. by repeat case_match. Qed.

Lemma found_inherited_in {A} (pn : option string) (k : string) :
  JS.found (@JS.inherited_in A pn k) = None
  ↔ JS.is_inherited_in pn k = false.
Proof.
  unfold JS.is_inherited_in, JS.inherited_in, JS.inherited.
  destruct (String.eqb k "__proto__"); [done|].
  destruct (find _ JS.Object_prototype_functions); [done|].
  destruct (String.eqb k "name"); [|done].
  destruct pn as [n|]; [|done]. cbn [JS.found]. by destruct (JS.truthy n).
Qed.


(** While [Object.prototype] has no [name], the inherited keys are the
    names it defines itself. *)
Lemma is_inherited_in_None (k : string) :
  JS.is_inherited_in None k = JS.is_inherited k.
Proof.
  unfold JS.is_inherited_in, JS.is_inherited, JS.inherited_in.
  destruct (JS.inherited k) eqn:Hk.
  - by rewrite <- Hk, found_inherited, Hk.
  - by destruct (String.eqb k "name").
Qed.

Lemma not_inherited_in (pn : option string) (k : string) :
  JS.is_inherited k = false → k ≠ "name" → JS.is_inherited_in pn k = false.
Proof.
  unfold JS.is_inherited_in, JS.is_inherited, JS.inherited_in.
  intros Hk Hname. destruct (JS.inherited k); [done|].
  by rewrite (proj2 (String.eqb_neq k "name") Hname).
Qed.

Lemma getUser_found_Own (pn : option string) (room : Room.t)
    (userId : string) (u : User.t) :
  JS.found (Room.getUser pn room userId) = Some (JS.Own u) →
  Room.own userId (Room.users room) = Some u.
Proof.
  unfold Room.getUser, JS.inherited_in, JS.inherited.
  destruct (Room.own userId (Room.users room)); [by intros [= ->]|].
  repeat case_match; cbn [JS.found]; repeat case_match; done.
Qed.

Lemma getUser_None (pn : option string) (room : Room.t) (userId : string) :
  JS.found (Room.getUser pn room userId) = None
  ↔ Room.own userId (Room.users room) = None
    ∧ JS.is_inherited_in pn userId = false.
Proof.
  unfold Room.getUser.
  destruct (Room.own userId (Room.users room)); [by split; [|intros [? _]]|].
  rewrite found_inherited_in. by split; [|intros [_ ?]].
Qed.

(** A chat message for a room the directory does not hold, or from an id
    that [getUser] does not find, is dropped: no change, no emission, no
    acknowledgement. *)
Lemma chat_dropped (w : World) (roomId userId text : string) :
  (rooms w !! roomId = None
   ∨ ∃ room, rooms w !! roomId = Some room
             ∧ JS.found (Room.getUser (proto_name w) room userId) = None) →
  on_chat_message roomId userId text w = mkOutcome w [] None.
Proof.
  unfold on_chat_message. intros [-> | (room & -> & ->)]; done.
Qed.

End Chat.

Section ChatScenario.
#[local] Existing Instance sample_runtime.

End ChatScenario.

(** ** Ids that name a property of [Object.prototype] *)

Section InheritedNames.
#[local] Existing Instance sample_runtime.

(** C10 at an id no member carries: [users["constructor"]] is the
    inherited function [Object], so the lookup guard lets the message
    through; it is logged and sent under the name [Object], and
    acknowledged. *)
Theorem chat_from_inherited_name :
  let out := on_chat_message "abc" "constructor" "hi" sample_world in
  rooms sample_world !! "abc" = Some sample_room
  ∧ Room.own "constructor" (Room.users sample_room) = None
  ∧ reply out = Some Ok
  ∧ (∃ id time, emits out
       = [ mkEmit (ToRoom "abc")
             (chat_message id "constructor" (Some "Object") "hi" time) ])
  ∧ (∃ room' log, rooms (world out) !! "abc" = Some room'
       ∧ last (Room.logs room') = Some log
       ∧ Log.type log = "chat" ∧ Log.text log = "Object: hi").
Proof.
  split_and!.
  - vm_compute. reflexivity.
  - vm_compute. reflexivity.
  - vm_compute. reflexivity.
  - do 2 eexists. vm_compute. reflexivity.
  - do 2 eexists. split_and!; [vm_compute; reflexivity | reflexivity ..].
Qed.

(** C4 at an id no member carries: [host:take] for [constructor] is not
    answered [user_not_found]; it succeeds and makes [constructor] the
    room's [hostId]. *)
Theorem take_host_inherited_name :
  let out := on_host_take "abc" "constructor" sample_world in
  rooms sample_world !! "abc" = Some sample_room
  ∧ Room.own "constructor" (Room.users sample_room) = None
  ∧ reply out = Some Ok
  ∧ (∃ room' log, rooms (world out) !! "abc" = Some room'
       ∧ Room.hostId room' = Some "constructor"
       ∧ last (Room.logs room') = Some log
       ∧ Log.type log = "host_changed"
       ∧ Log.text log = "Object took host control (previous host: Ann)").
Proof.
  split_and!.
  - vm_compute. reflexivity.
  - vm_compute. reflexivity.
  - vm_compute. reflexivity.
  - do 2 eexists. split_and!; [vm_compute; reflexivity | reflexivity ..].
Qed.

(** C1 on a run from the empty directory: after one join and a
    [host:take] for [constructor], the room's [hostId] is the id of none of
    its members. *)
Theorem host_id_dangles :
  let w := run init [ RoomJoin "s1" "abc" (Some "Ann");
                      HostTake "abc" "constructor" ] in
  ∃ room h, rooms w !! "abc" = Some room
            ∧ Room.hostId room = Some h
            ∧ Room.userList room
              = [ ("11000000-0000-4000-8000-000000000000", "Ann") ]
            ∧ Room.own h (Room.users room) = None.
Proof.
  do 2 eexists. split_and!; [vm_compute; reflexivity | reflexivity ..].
Qed.

(** A rename under the id [__proto__] stores the new name as
    [Object.prototype.name]; from then on [users["name"]] is that string, so
    [host:take] for [name] passes the guard as well, and the string's own
    [name] is read from [Object.prototype] again. *)
Lemma take_host_after_proto_rename :
  let w := run sample_world [ ChatMessage "abc" "__proto__" "/name X" ] in
  let out := on_host_take "abc" "name" w in
  proto_name w = Some "X"
  ∧ on_host_take "abc" "name" sample_world
    = mkOutcome sample_world [] (Some (Fail (Some "user_not_found")))
  ∧ reply out = Some Ok
  ∧ (∃ room' log, rooms (world out) !! "abc" = Some room'
       ∧ Room.hostId room' = Some "name"
       ∧ Room.own "name" (Room.users room') = None
       ∧ last (Room.logs room') = Some log
       ∧ Log.text log = "X took host control (previous host: Ann)")
  ∧ reply (on_chat_message "abc" "name" "/name Y" w) = Some (Fail None).
Proof.
  split_and!.
  - vm_compute. reflexivity.
  - vm_compute. reflexivity.
  - vm_compute. reflexivity.
  - do 2 eexists. split_and!; [vm_compute; reflexivity | reflexivity ..].
  - vm_compute. reflexivity.
Qed.
End InheritedNames.

(** ** Taking the host role *)

Section HostTake.
Context `{Runtime}.

Lemma take_host_room_not_found (w : World) (roomId userId : string) :
  rooms w !! roomId = None →
  on_host_take roomId userId w
  = mkOutcome w [] (Some (Fail (Some "room_not_found"))).
Proof. unfold on_host_take. by intros ->. Qed.

(** An id that is neither a member's nor a key that [Object.prototype], as
    it is in the state [w], makes truthy. *)
Lemma take_host_user_not_found (w : World) (roomId userId : string)
    (room : Room.t) :
  rooms w !! roomId = Some room →
  Room.own userId (Room.users room) = None →
  JS.is_inherited_in (proto_name w) userId = false →
  on_host_take roomId userId w
  = mkOutcome w [] (Some (Fail (Some "user_not_found"))).
Proof.
  intros Hroom Hown Hinh. unfold on_host_take. rewrite Hroom.
  by rewrite (proj2 (getUser_None (proto_name w) room userId) (conj Hown Hinh)).
Qed.

(** What [host:take] does once [getUser] has found something. *)
Lemma take_host_found (w : World) (roomId userId : string) (room : Room.t)
    (p : JS.Property User.t) :
  rooms w !! roomId = Some room →
  JS.found (Room.getUser (proto_name w) room userId) = Some p →
  let out := on_host_take roomId userId w in
  reply out = Some Ok
  ∧ ∃ room' log,
      rooms (world out) = <[roomId := room']> (rooms w)
      ∧ Room.hostId room' = Some userId
      ∧ Room.users room' = Room.users room
      ∧ Room.playbackState room' = Room.playbackState room
      ∧ (length (Room.logs room) ≤ 500 → length (Room.logs room') ≤ 500)
      ∧ last (Room.logs room') = Some log
      ∧ Log.type log = "host_changed".
Proof.
  intros Hroom Hget. cbv zeta. unfold on_host_take. rewrite Hroom, Hget.
  destruct (Room.addLog _ _ _ (tick w)) as [[log r'] t'] eqn:Elog.
  apply addLog_inv in Elog as (_ & Hu & Hh & _ & Hp & Hlast & Hty & _ & Hb).
  cbn [reply world rooms with_room]. split; [done|].
  exists r', log. split_and!; done.
Qed.
End HostTake.

(** ** Every handler evolves the directory *)

Section Evolution.
Context `{Runtime}.

Lemma changes_refl (r : Room.t) : changes OnlyLogs r r.
Proof. by split_and!. Qed.

Lemma join_evolves sock roomId username w :
  evolves (RoomJoin sock roomId username) w
    (world (on_room_join sock roomId username w)).
Proof.
  right. unfold on_room_join.
  destruct (rooms w !! roomId) as [room|] eqn:Hroom.
  - destruct (join_room sock roomId username room (tick w))
      as [[[r' out] rep] t'] eqn:Ejoin.
    apply join_room_inv in Ejoin
      as (u & _ & Hsock & Hname & Hus & Hh & Hi & Hv & Hp & Hb).
    exists roomId, room, r', (Joins sock username u). cbn [world rooms].
    split_and!; try done. by left.
  - unfold Rooms.create, bind, ret.
    destruct ((if JS.truthy roomId then _ else uuidv4) (tick w))
      as [key t0] eqn:Ekey.
    cbn [Room.id Room.new].
    destruct (join_room sock roomId username (Room.new key) t0)
      as [[[r' out] rep] t'] eqn:Ejoin.
    apply join_room_inv in Ejoin
      as (u & _ & Hsock & Hname & Hus & Hh & Hi & Hv & Hp & Hb).
    exists key, (Room.new key), r', (Joins sock username u). cbn [world rooms].
    split_and!; try done.
    + apply insert_insert_eq.
    + right. split; [done|]. by exists sock, roomId, username.
Qed.

Lemma chat_evolves roomId userId text w :
  evolves (ChatMessage roomId userId text) w
    (world (on_chat_message roomId userId text w)).
Proof.
  unfold on_chat_message.
  destruct (rooms w !! roomId) as [room|] eqn:Hroom; [|by left].
  destruct (JS.found (Room.getUser (proto_name w) room userId))
    as [p|] eqn:Hget; [|by left].
  destruct (JS.startsWith "/name" (JS.trim text)).
  - destruct (_ && _); [|by left].
    unfold Room.changeUsername. rewrite Hget.
    destruct p as [u|f| |n]; [| by left | | by left].
    + assert (Room.own userId (Room.users room) = Some u) as Hown
        by (by eapply getUser_found_Own).
      destruct (Room.addLog _ _ _ (tick w)) as [[log r'] t'] eqn:Elog.
      apply addLog_inv in Elog as (Hi & Hu & Hh & Hv & Hp & _ & _ & _ & Hb).
      right.
      exists roomId, room, r',
        (Renames userId (JS.trim (JS.slice 5 (JS.trim text))) u).
      cbn [world rooms]. split_and!; try done. by left.
    + destruct (Room.addLog _ _ _ (tick w)) as [[log r'] t'] eqn:Elog.
      apply addLog_inv in Elog as (Hi & Hu & Hh & Hv & Hp & _ & _ & _ & Hb).
      right. exists roomId, room, r', OnlyLogs. cbn [world rooms].
      split_and!; try done. by left.
  - destruct (uuidv4 (tick w)) as [id t0].
    destruct (now t0) as [time t1].
    destruct (Room.addLog _ _ _ t1) as [[log r'] t'] eqn:Elog.
    apply addLog_inv in Elog as (Hi & Hu & Hh & Hv & Hp & _ & _ & _ & Hb).
    right. exists roomId, room, r', OnlyLogs. cbn [world rooms with_room].
    split_and!; try done. by left.
Qed.

Lemma host_branch_inv roomId action time room t room' out t' :
  host_branch roomId action time room t = (room', out, t') →
  Room.id room' = Room.id room
  ∧ (length (Room.logs room) ≤ 500 → length (Room.logs room') ≤ 500)
  ∧ Room.playbackState room' = played action time (Room.playbackState room)
  ∧ Room.users room' = Room.users room
  ∧ Room.hostId room' = Room.hostId room
  ∧ Room.video room' = Room.video room.
Proof.
  unfold host_branch, played.
  destruct (String.eqb action "play");
    [|destruct (String.eqb action "pause");
      [|destruct (String.eqb action "seek")]].
  4: { unfold ret. by intros [= <- <- <-]. }
  all: unfold bind;
    destruct (Room.addLog _ _ _ t) as [[log r1] t1] eqn:Elog;
    apply addLog_inv in Elog as (Hi & Hu & Hh & Hv & Hp & _ & _ & _ & Hb);
    unfold ret; intros [= <- <- <-]; split_and!; done.
Qed.

Lemma host_action_evolves roomId userId action time w :
  evolves (HostAction roomId userId action time) w
    (world (on_host_action roomId userId action time w)).
Proof.
  unfold on_host_action.
  destruct (rooms w !! roomId) as [room|] eqn:Hroom; [|by left].
  case_bool_decide as Hhost; [by left|].
  destruct (host_branch roomId action time room (tick w))
    as [[r' out] t'] eqn:Ebranch.
  apply host_branch_inv in Ebranch as (Hi & Hb & Hp & Hu & Hh & Hv).
  right. exists roomId, room, r', (Plays userId action time).
  cbn [world rooms with_room]. split_and!; try done. by left.
Qed.

Lemma host_take_evolves roomId userId w :
  evolves (HostTake roomId userId) w (world (on_host_take roomId userId w)).
Proof.
  unfold on_host_take.
  destruct (rooms w !! roomId) as [room|] eqn:Hroom; [|by left].
  destruct (JS.found (Room.getUser (proto_name w) room userId))
    as [p|] eqn:Hget; [|by left].
  destruct (Room.addLog _ _ _ (tick w)) as [[log r'] t'] eqn:Elog.
  apply addLog_inv in Elog as (Hi & Hu & Hh & Hv & Hp & _ & _ & _ & Hb).
  right. exists roomId, room, r', (TakesHost userId).
  cbn [world rooms with_room]. split_and!; try done; [by left|].
  split_and!; try done. exists (proto_name w). by rewrite Hget.
Qed.

Lemma upload_evolves roomId meta w :
  evolves (Uploaded roomId meta) w (world (on_upload roomId meta w)).
Proof.
  unfold on_upload. destruct (JS.truthy roomId); [|by left].
  destruct (rooms w !! roomId) as [room|] eqn:Hroom; [|by left].
  destruct (Room.addLog _ _ _ (tick w)) as [[log r'] t'] eqn:Elog.
  apply addLog_inv in Elog as (Hi & Hu & Hh & Hv & Hp & _ & _ & _ & Hb).
  right. exists roomId, room, r', (SetsVideo meta).
  cbn [world rooms with_room]. split_and!; try done. by left.
Qed.

Lemma leave_room_evolves sock roomId w :
  evolves (Disconnecting sock) w (leave_room sock roomId w).1.
Proof.
  unfold leave_room.
  destruct (rooms w !! roomId) as [room|] eqn:Hroom; [|by left].
  destruct (Room.getUserBySocket room sock) as [user|] eqn:Hsock; [|by left].
  destruct (Room.addLog _ _ _ (tick w)) as [[log r1] t1] eqn:Elog.
  apply addLog_inv in Elog as (Hi & Hu & Hh & Hv & Hp & _ & _ & _ & Hb).
  cbn [Room.removeUser Room.with_users Room.id Room.users Room.hostId
       Room.video Room.playbackState Room.logs] in *.
  right. exists roomId, room. rewrite Hh.
  destruct (bool_decide (Room.hostId room = Some (User.id user))) eqn:Hhost.
  - unfold Room.anyUser. rewrite Hu.
    destruct (head (Room.del (User.id user) (Room.users room)))
      as [nextUser|] eqn:Hnext.
    + destruct (Room.addLog _ _ _ t1) as [[hostLog r2] t2] eqn:Elog'.
      apply addLog_inv in Elog'
        as (Hi' & Hu' & Hh' & Hv' & Hp' & _ & _ & _ & Hb').
      cbn [Room.setHost Room.with_hostId Room.id Room.users Room.hostId
           Room.video Room.playbackState Room.logs] in *.
      exists r2, (Leaves sock user). cbn [fst world rooms with_room].
      split_and!; [done | by left | | done].
      unfold changes. split_and!; try done; try congruence.
      * intros Hlen. by apply Hb', Hb.
      * by rewrite Hhost, Hu', Hu, Hnext.
    + exists (Room.with_hostId r1 None), (Leaves sock user).
      cbn [fst world rooms with_room].
      split_and!; [done | by left | | done].
      unfold changes.
      cbn [Room.with_hostId Room.id Room.users Room.hostId Room.video
           Room.playbackState Room.logs].
      split_and!; try done. by rewrite Hhost, Hu, Hnext.
  - exists r1, (Leaves sock user). cbn [fst world rooms with_room].
    split_and!; [done | by left | | done].
    unfold changes. split_and!; try done. by rewrite Hhost.
Qed.

(** The directory after [socket.on('disconnecting')] is the one the
    departures leave, room after room. *)
Lemma departures_step sock roomId rest w :
  departures sock (roomId :: rest) w
  = departures sock rest (leave_room sock roomId w).1.
Proof. done. Qed.

Lemma disconnecting_rooms sock w :
  rooms (world (on_disconnecting sock w))
  = rooms (departures sock
             (filter (λ r, r ≠ sock) (default [] (socket_rooms w !! sock))) w).
Proof.
  unfold on_disconnecting, departures.
  generalize (filter (λ r, r ≠ sock) (default [] (socket_rooms w !! sock))).
  intros joined. generalize (@nil Emit). revert w.
  induction joined as [|roomId rest IH]; intros w out; [done|].
  cbn [fold_left fst snd].
  destruct (leave_room sock roomId w) as [w1 out1] eqn:Eleave.
  cbn [fst]. apply IH.
Qed.
End Evolution.

(** ** Invariants of the rooms along a run *)

Section Invariants.
Context `{Runtime}.
Variable I : Room.t → Prop.
Variable ok : World → Event → Prop.
Hypothesis I_new : ∀ k, I (Room.new k).
Hypothesis I_changes :
  ∀ e w k r r' c,
    ok w e → I r → source e w k r → changes c r r' → caused_by e c → I r'.
Hypothesis ok_disconnect : ∀ sock w w', ok w (Disconnecting sock) → ok w' (Disconnecting sock).

Lemma evolves_rooms_all e w w' :
  rooms_all I w → ok w e → evolves e w w' → rooms_all I w'.
Proof.
  intros Hall Hok [Hsame | (k & r & r' & c & Hrooms & Hsrc & Hch & Hby)].
  - intros k r. rewrite Hsame. apply Hall.
  - assert (I r) as Hr.
    { destruct Hsrc as [[Hk _] | [-> _]]; [by eapply Hall | apply I_new]. }
    intros k0 r0. rewrite Hrooms. destruct (decide (k = k0)) as [<-|Hne].
    + rewrite lookup_insert_eq. intros [= <-]. by eapply I_changes.
    + rewrite lookup_insert_ne by done. apply Hall.
Qed.

Lemma departures_rooms_all sock joined w :
  rooms_all I w → ok w (Disconnecting sock) →
  rooms_all I (departures sock joined w).
Proof.
  revert w. induction joined as [|roomId rest IH]; intros w Hall Hok; [done|].
  rewrite departures_step. apply IH.
  - eapply evolves_rooms_all; [done | done | apply leave_room_evolves].
  - by eapply ok_disconnect.
Qed.

Lemma step_rooms_all e w : rooms_all I w → ok w e → rooms_all I (step w e).
Proof.
  intros Hall Hok. unfold step. destruct e; cbn [handle].
  - eapply evolves_rooms_all; [done | done | apply join_evolves].
  - eapply evolves_rooms_all; [done | done | apply chat_evolves].
  - eapply evolves_rooms_all; [done | done | apply host_action_evolves].
  - eapply evolves_rooms_all; [done | done | apply host_take_evolves].
  - intros k r. rewrite disconnecting_rooms. by apply departures_rooms_all.
  - eapply evolves_rooms_all; [done | done | apply upload_evolves].
Qed.

Lemma run_rooms_all es w :
  rooms_all I w → admissible ok w es → rooms_all I (run w es).
Proof.
  revert w. induction es as [|e es IH]; intros w Hall Hadm; [done|].
  destruct Hadm as [Hok Hadm]. cbn [run fold_left]. apply IH; [|done].
  by apply step_rooms_all.
Qed.

Lemma run_init_rooms_all es :
  admissible ok init es → rooms_all I (run init es).
Proof.
  apply run_rooms_all. intros k r. cbn [init rooms]. by rewrite lookup_empty.
Qed.
End Invariants.

Section RoomInvariants.
Context `{Runtime}.

(** In every reachable state the keys of [users] are distinct and the log
    holds at most 500 entries. *)
Lemma run_well_formed (es : list Event) : rooms_all well_formed (run init es).
Proof.
  apply (run_init_rooms_all well_formed any_event); [| | done |].
  - intros k. split; [apply NoDup_nil_2 | simpl; lia].
  - intros e w k r r' c _ [Hnd Hlen] _ (_ & Hb & Hc) _.
    split; [|by apply Hb].
    destruct c.
    + destruct Hc as (_ & _ & -> & _). by apply NoDup_keys_put.
    + destruct Hc as (_ & -> & _). by apply NoDup_keys_put.
    + destruct Hc as (_ & _ & -> & _). done.
    + destruct Hc as (_ & _ & -> & _). done.
    + destruct Hc as (_ & -> & _). by apply NoDup_keys_del.
    + destruct Hc as (_ & -> & _). done.
    + destruct Hc as (-> & _). done.
  - generalize init. induction es as [|e es' IH]; [done|].
    intros w. split; [done | apply IH].
Qed.

Lemma own_put_is_Some h u us :
  is_Some (Room.own h us) → is_Some (Room.own h (Room.put u us)).
Proof.
  intros Hh. destruct (decide (h = User.id u)) as [->|Hne].
  - rewrite own_put_eq. by eexists.
  - by rewrite own_put_ne.
Qed.

(** The host invariant holds along every run whose [host:take] events
    carry ids that name no property of [Object.prototype], [name]
    included. *)
Lemma run_host_present (es : list Event) :
  admissible takes_by_id init es → rooms_all host_present (run init es).
Proof.
  apply (run_init_rooms_all host_present takes_by_id); [| | done].
  - intros k h. done.
  - intros e w k r r' c Hok Hr _ (_ & _ & Hc) Hby h Hh.
    destruct c.
    + destruct Hc as (_ & _ & Hus & Hhost & _). rewrite Hus.
      rewrite Hhost in Hh. destruct (Room.no_host r).
      * injection Hh as <-. rewrite own_put_eq. by eexists.
      * by apply own_put_is_Some, Hr.
    + destruct Hc as (_ & Hus & Hhost & _). rewrite Hus.
      rewrite Hhost in Hh. by apply own_put_is_Some, Hr.
    + destruct Hc as (_ & _ & Hus & Hhost & _). rewrite Hus.
      rewrite Hhost in Hh. by apply Hr.
    + destruct Hc as (Hget & Hhost & Hus & _). rewrite Hus.
      rewrite Hhost in Hh. injection Hh as <-.
      destruct e; try done. cbn in Hby, Hok. subst userId0.
      destruct (Room.own userId (Room.users r)) eqn:Hown; [by eexists|].
      destruct Hok as [Hinh Hname]. destruct Hget as [pn Hget].
      pose proof (proj2 (getUser_None pn r userId)
                    (conj Hown (not_inherited_in pn userId Hinh Hname)))
        as Hnone.
      rewrite Hnone in Hget. by destruct Hget.
    + destruct Hc as (_ & Hus & Hhost & _). rewrite Hhost in Hh.
      case_bool_decide as Hwas.
      * destruct (head (Room.users r')) as [n|] eqn:Hhead; [|done].
        injection Hh as <-. apply own_is_Some.
        apply list_elem_of_fmap_2. by apply head_Some_elem_of.
      * rewrite Hus, own_del_ne; [by apply Hr | congruence].
    + destruct Hc as (_ & Hus & Hhost & _). rewrite Hus.
      rewrite Hhost in Hh. by apply Hr.
    + destruct Hc as (Hus & Hhost & _). rewrite Hus.
      rewrite Hhost in Hh. by apply Hr.
Qed.
(** Along such runs a non-null [hostId] is the id of exactly one member. *)
Lemma run_host_held_by_one (es : list Event) (k h : string) (r : Room.t) :
  admissible takes_by_id init es →
  rooms (run init es) !! k = Some r →
  Room.hostId r = Some h →
  ∃ m, m ∈ Room.users r ∧ User.id m = h
       ∧ ∀ n, n ∈ Room.users r → User.id n = h → n = m.
Proof.
  intros Hadm Hr Hh.
  destruct (run_host_present es Hadm k r Hr h Hh) as [m Hm].
  apply own_Some in Hm as [Hid Hin]. exists m. split_and!; [done | done |].
  intros n Hn Hnid. apply (NoDup_keys_inj (Room.users r)); try done.
  - by apply (run_well_formed es k r).
  - congruence.
Qed.
End RoomInvariants.

(** ** Sockets and members *)

Section Sockets.
Context `{Runtime}.

Lemma getUserBySocket_None (r : Room.t) (sock : string) :
  Room.getUserBySocket r sock = None ↔ sock ∉ map User.socketId (Room.users r).
Proof.
  unfold Room.getUserBySocket. induction (Room.users r) as [|v vs IH]; simpl.
  - split; [intros _; apply not_elem_of_nil | done].
  - rewrite not_elem_of_cons. destruct (String.eqb_spec (User.socketId v) sock).
    + split; [done | intros [? _]; congruence].
    + rewrite IH. split; [by intros ? | by intros [_ ?]].
Qed.

Lemma sockets_put (u : User.t) (us : list User.t) (s : string) :
  s ∈ map User.socketId (Room.put u us) →
  s = User.socketId u ∨ s ∈ map User.socketId us.
Proof.
  intros (v & -> & Hv)%list_elem_of_fmap_1.
  apply elem_of_put in Hv as [->|Hv]; [by left | right].
  by apply list_elem_of_fmap_2.
Qed.

Lemma NoDup_sockets_put (u : User.t) (us : list User.t) :
  NoDup (map User.socketId us) →
  User.socketId u ∉ map User.socketId us →
  NoDup (map User.socketId (Room.put u us)).
Proof.
  induction us as [|v vs IH]; cbn [map Room.put]; intros Hnd Hnew.
  - apply NoDup_singleton.
  - apply NoDup_cons in Hnd as [Hv Hnd].
    apply not_elem_of_cons in Hnew as [Hne Hnew].
    destruct (String.eqb (User.id v) (User.id u)); cbn [map].
    + apply NoDup_cons. done.
    + apply NoDup_cons. split; [|by apply IH].
      intros [Heq|Hin]%sockets_put; [congruence | done].
Qed.

Lemma sockets_rename (k newName : string) (u : User.t) (us : list User.t) :
  Room.own k us = Some u →
  map User.socketId (Room.put (Room.rename newName u) us)
  = map User.socketId us.
Proof.
  unfold Room.own. induction us as [|v vs IH]; [done|]. cbn [find Room.put map].
  change (User.id (Room.rename newName u)) with (User.id u).
  destruct (String.eqb_spec (User.id v) k) as [Hvk|Hvk].
  - intros [= ->]. by rewrite String.eqb_refl.
  - intros Hfind. pose proof (own_Some _ _ _ Hfind) as [Hid _].
    destruct (String.eqb_spec (User.id v) (User.id u)); [congruence|].
    cbn [map]. by rewrite IH.
Qed.

Lemma NoDup_sockets_del (k : string) (us : list User.t) :
  NoDup (map User.socketId us) → NoDup (map User.socketId (Room.del k us)).
Proof.
  unfold Room.del. induction us as [|v vs IH]; [done|].
  cbn [map]. intros [Hv Hnd]%NoDup_cons. rewrite filter_cons.
  destruct (decide (User.id v ≠ k)); [|by apply IH].
  cbn [map]. apply NoDup_cons. split; [|by apply IH].
  intros (x & Hx & Hin%list_elem_of_filter)%list_elem_of_fmap_1.
  apply Hv. rewrite Hx. apply list_elem_of_fmap_2. by destruct Hin.
Qed.

(** C5, as the code has it.  Along every run in which a socket joins a
    room only while it owns no member of that room, no two members of a
    room are owned by the same socket. *)
Theorem sockets_unique_when_joined_once (es : list Event) :
  admissible joins_once init es →
  rooms_all sockets_unique (run init es).
Proof.
  apply (run_init_rooms_all sockets_unique joins_once); [| | done].
  - intros k. apply NoDup_nil_2.
  - intros e w k r r' c Hok Hr Hsrc (_ & _ & Hc) Hby.
    unfold sockets_unique in *. destruct c.
    + destruct Hc as (Hsock & _ & -> & _).
      apply NoDup_sockets_put; [done|]. rewrite Hsock.
      destruct e; try done. destruct Hby as [-> _]. cbn in Hok.
      destruct Hsrc as [[Hk ->] | [-> _]]; [|apply not_elem_of_nil].
      rewrite Hk in Hok. by apply getUserBySocket_None.
    + destruct Hc as (Hown & -> & _). by rewrite (sockets_rename _ _ _ _ Hown).
    + destruct Hc as (_ & _ & -> & _). done.
    + destruct Hc as (_ & _ & -> & _). done.
    + destruct Hc as (_ & -> & _). by apply NoDup_sockets_del.
    + destruct Hc as (_ & -> & _). done.
    + destruct Hc as (-> & _). done.
Qed.
End Sockets.

Section SocketsScenario.
#[local] Existing Instance sample_runtime.

Lemma sockets_unique_when_joined_once_witness :
  rooms_all sockets_unique
    (run init [ RoomJoin "s1" "abc" (Some "Ann");
                RoomJoin "s2" "abc" (Some "Bea");
                RoomJoin "s1" "xyz" None;
                Disconnecting "s1";
                RoomJoin "s3" "abc" (Some "Cy") ]).
Proof.
  apply sockets_unique_when_joined_once.
  cbn [admissible]. split_and!; try exact Logic.I; vm_compute; reflexivity.
Defined.

(** C5, as stated, fails: a second [room:join] of a socket for the same
    room adds a second member owned by that socket. *)
Lemma second_join_shares_socket :
  ∃ r u1 u2,
    rooms (run init [ RoomJoin "s1" "abc" (Some "Ann");
                      RoomJoin "s1" "abc" (Some "Ann") ]) !! "abc" = Some r
    ∧ Room.users r = [u1; u2]
    ∧ User.id u1 ≠ User.id u2
    ∧ User.socketId u1 = "s1" ∧ User.socketId u2 = "s1"
    ∧ ¬ sockets_unique r.
Proof.
  do 3 eexists. split_and!.
  - vm_compute. reflexivity.
  - reflexivity.
  - vm_compute. discriminate.
  - reflexivity.
  - reflexivity.
  - unfold sockets_unique. cbn. intros Hnd.
    apply NoDup_cons in Hnd as [Hnot _]. apply Hnot. left.
Qed.
End SocketsScenario.

(** ** The playback position *)

Section Position.
Context `{Runtime}.


End Position.

Section PositionScenario.
#[local] Existing Instance sample_runtime.


End PositionScenario.

(** ** Disconnecting *)

Section Disconnecting.
Context `{Runtime}.

Lemma leave_room_socket_rooms sock roomId w :
  socket_rooms (leave_room sock roomId w).1 = socket_rooms w.
Proof. unfold leave_room. by repeat case_match. Qed.

Lemma leave_room_frame sock roomId w k :
  k ≠ roomId → rooms (leave_room sock roomId w).1 !! k = rooms w !! k.
Proof.
  intros Hne. unfold leave_room.
  repeat case_match; cbn [fst rooms with_room]; by rewrite ?lookup_insert_ne.
Qed.

Lemma departures_socket_rooms sock joined w :
  socket_rooms (departures sock joined w) = socket_rooms w.
Proof.
  revert w. induction joined as [|roomId rest IH]; intros w; [done|].
  by rewrite departures_step, IH, leave_room_socket_rooms.
Qed.

Lemma departures_frame sock joined w k :
  k ∉ joined → rooms (departures sock joined w) !! k = rooms w !! k.
Proof.
  revert w. induction joined as [|roomId rest IH]; intros w Hk; [done|].
  apply not_elem_of_cons in Hk as [Hne Hk].
  by rewrite departures_step, IH, leave_room_frame.
Qed.

Lemma departures_app sock l1 l2 w :
  departures sock (l1 ++ l2) w = departures sock l2 (departures sock l1 w).
Proof. unfold departures. apply fold_left_app. Qed.

(** With each room listed once, the room under [roomId] is changed by its
    own departure only. *)
Lemma departures_at sock joined w roomId :
  NoDup joined → roomId ∈ joined →
  ∃ w1, rooms w1 !! roomId = rooms w !! roomId
        ∧ rooms (departures sock joined w) !! roomId
          = rooms (leave_room sock roomId w1).1 !! roomId.
Proof.
  intros Hnd (l1 & l2 & ->)%list_elem_of_split.
  apply NoDup_app in Hnd as (_ & Hl1 & [Hl2 _]%NoDup_cons).
  exists (departures sock l1 w). split.
  - apply departures_frame. intros Hin. apply (Hl1 _ Hin). left.
  - by rewrite departures_app, departures_step, departures_frame.
Qed.

Lemma disconnecting_socket_rooms sock w :
  socket_rooms (world (on_disconnecting sock w)) = delete sock (socket_rooms w).
Proof.
  unfold on_disconnecting.
  generalize (filter (λ r, r ≠ sock) (default [] (socket_rooms w !! sock))).
  intros joined. generalize (@nil Emit).
  assert (∀ w0 out,
    socket_rooms
      (fold_left
         (λ acc roomId,
            let '(w1, out1) := leave_room sock roomId acc.1 in
            (w1, acc.2 ++ out1)) joined (w0, out)).1 = socket_rooms w0) as Hfold.
  { induction joined as [|roomId rest IH]; intros w0 out; [done|].
    cbn [fold_left fst snd].
    pose proof (leave_room_socket_rooms sock roomId w0) as Hleave.
    destruct (leave_room sock roomId w0) as [w1 out1].
    rewrite IH. done. }
  intros out. specialize (Hfold w out).
  destruct (fold_left _ joined (w, out)) as [w' out']. cbn [world socket_rooms].
  by rewrite <- Hfold.
Qed.

Lemma join_socket_rooms sock roomId username w :
  socket_rooms (world (on_room_join sock roomId username w))
  = socket_join sock roomId (socket_rooms w).
Proof. unfold on_room_join. by repeat case_match. Qed.

Lemma step_socket_rooms_distinct e w :
  socket_rooms_distinct w → socket_rooms_distinct (step w e).
Proof.
  intros Hw sock joined. unfold step. destruct e; cbn [handle].
  - rewrite join_socket_rooms.
    unfold socket_join. destruct (decide (sock0 = sock)) as [->|Hne].
    + rewrite lookup_insert_eq. intros [= <-].
      assert (NoDup (default [] (socket_rooms w !! sock))) as Hnd.
      { destruct (socket_rooms w !! sock) eqn:E; [by eapply Hw | apply NoDup_nil_2]. }
      case_bool_decide as Hin; [done|].
      apply NoDup_app. split_and!; [done | | apply NoDup_singleton].
      by intros x Hx ->%list_elem_of_singleton.
    + rewrite lookup_insert_ne by done. apply Hw.
  - unfold on_chat_message. repeat case_match; apply Hw.
  - unfold on_host_action. repeat case_match; apply Hw.
  - unfold on_host_take. repeat case_match; apply Hw.
  - rewrite disconnecting_socket_rooms.
    intros [_ Hl]%lookup_delete_Some. by eapply Hw.
  - unfold on_upload. repeat case_match; apply Hw.
Qed.

Lemma run_socket_rooms_distinct es : socket_rooms_distinct (run init es).
Proof.
  assert (∀ w, socket_rooms_distinct w → socket_rooms_distinct (run w es)) as Hrun.
  { induction es as [|e es' IH]; intros w Hw; [done|].
    cbn [run fold_left]. by apply IH, step_socket_rooms_distinct. }
  apply Hrun. intros sock joined. cbn [init socket_rooms].
  by rewrite lookup_empty.
Qed.


End Disconnecting.

Section DisconnectingScenario.
#[local] Existing Instance sample_runtime.

End DisconnectingScenario.


(** * Further properties of the coordinator *)

(** ** The directory *)

Section Directory.
Context `{Runtime}.

(** X1. [create] stores a new, empty room under a non-empty id: the id
    given, or a fresh uuid when the id given is empty.  Whatever room was
    stored under that id is replaced, the other rooms are untouched, and
    [delete] removes the room again. *)
Theorem create_stores_new_room (id : string) (m : gmap string Room.t) (t : nat) :
  let room := (Rooms.create id m t).1.1 in
  let m' := (Rooms.create id m t).1.2 in
  Room.id room = (if JS.truthy id then id else JS.uuid_string (entropy t))
  ∧ JS.truthy (Room.id room) = true
  ∧ room = Room.new (Room.id room)
  ∧ Rooms.get (Room.id room) m' = Some room
  ∧ (∀ k, k ≠ Room.id room → Rooms.get k m' = Rooms.get k m)
  ∧ Rooms.get (Room.id room) (Rooms.delete (Room.id room) m') = None
  ∧ (∀ k, k ≠ Room.id room →
          Rooms.get k (Rooms.delete (Room.id room) m') = Rooms.get k m).
Proof.
  unfold Rooms.create, Rooms.get, Rooms.delete, bind, ret.
  destruct (JS.truthy id) eqn:Hid; cbn [uuidv4 fst snd Room.id Room.new];
    (split_and!;
     [ done
     | first [done | apply uuid_string_own_key]
     | done
     | apply lookup_insert_eq
     | intros k Hk; by rewrite lookup_insert_ne
     | apply lookup_delete_eq
     | intros k Hk; by rewrite lookup_delete_ne, lookup_insert_ne ]).
Qed.

(** What [room:join] does to the directory: the room found under [roomId],
    or else a room created under [roomId] (a fresh uuid when [roomId] is
    empty), takes the new member, whose id is a uuid. *)
Lemma join_effect sock roomId username w :
  ∃ key r0 r' u,
    rooms (world (on_room_join sock roomId username w)) = <[key := r']> (rooms w)
    ∧ (rooms w !! roomId = Some r0 ∧ key = roomId
       ∨ rooms w !! roomId = None ∧ r0 = Room.new key
         ∧ key = (if JS.truthy roomId then roomId
                  else JS.uuid_string (entropy (tick w))))
    ∧ changes (Joins sock username u) r0 r'
    ∧ String.length (User.id u) = 36
    ∧ reply (on_room_join sock roomId username w) = Some (OkUser u).
Proof.
  assert (∀ r t r' out rep t',
    join_room sock roomId username r t = (r', out, rep, t') →
    ∃ u, rep = OkUser u ∧ String.length (User.id u) = 36
         ∧ changes (Joins sock username u) r r') as Hjoin.
  { intros r t r' out rep t' Ejoin.
    assert (∃ u, rep = OkUser u ∧ User.id u = JS.uuid_string (entropy t)) as Hid.
    { revert Ejoin. unfold join_room. unfold bind at 1.
      destruct (Room.addUser sock username r t) as [[u r1] t1] eqn:Euser.
      apply addUser_inv in Euser as (_ & Hid & _).
      unfold bind at 1. destruct (Room.no_host r1).
      - unfold bind at 1. destruct (Room.addLog _ _ _ t1) as [[? ?] ?].
        unfold ret at 1. unfold bind at 1.
        destruct (Room.addLog _ _ _ _) as [[? ?] ?].
        unfold ret. intros [= <- <- <- <-]. by exists u.
      - unfold ret at 1. unfold bind at 1.
        destruct (Room.addLog _ _ _ _) as [[? ?] ?].
        unfold ret. intros [= <- <- <- <-]. by exists u. }
    destruct Hid as (u & -> & Hid).
    apply join_room_inv in Ejoin
      as (u' & [= <-] & Hsock & Hname & Hus & Hh & Hi & Hv & Hp & Hb).
    exists u. split_and!; try done. rewrite Hid. apply uuid_string_length. }
  unfold on_room_join.
  destruct (rooms w !! roomId) as [room|] eqn:Hroom.
  - destruct (join_room sock roomId username room (tick w))
      as [[[r' out] rep] t'] eqn:Ejoin.
    destruct (Hjoin _ _ _ _ _ _ Ejoin) as (u & -> & Hlen & Hch).
    exists roomId, room, r', u. cbn [world rooms reply].
    split_and!; try done. by left.
  - unfold Rooms.create, bind, ret.
    destruct (JS.truthy roomId) eqn:Htr.
    + cbn [Room.id Room.new].
      destruct (join_room sock roomId username (Room.new roomId) (tick w))
        as [[[r' out] rep] t'] eqn:Ejoin.
      destruct (Hjoin _ _ _ _ _ _ Ejoin) as (u & -> & Hlen & Hch).
      exists roomId, (Room.new roomId), r', u. cbn [world rooms reply].
      split_and!; try done; [apply insert_insert_eq | by right].
    + cbn [uuidv4 Room.id Room.new].
      destruct (join_room sock roomId username
                  (Room.new (JS.uuid_string (entropy (tick w)))) (S (tick w)))
        as [[[r' out] rep] t'] eqn:Ejoin.
      destruct (Hjoin _ _ _ _ _ _ Ejoin) as (u & -> & Hlen & Hch).
      exists (JS.uuid_string (entropy (tick w))),
        (Room.new (JS.uuid_string (entropy (tick w)))), r', u.
      cbn [world rooms reply].
      split_and!; try done; [apply insert_insert_eq | by right].
Qed.
End Directory.

(** ** Invariants of the rooms and their keys *)

Section KeyedInvariants.
Context `{Runtime}.
Variable I : string → Room.t → Prop.
Hypothesis I_join :
  ∀ sock roomId username w,
    rooms_keyed I w →
    rooms_keyed I (world (on_room_join sock roomId username w)).
Hypothesis I_changes :
  ∀ e w k r r' c,
    (∀ sock roomId username, e ≠ RoomJoin sock roomId username) →
    I k r → rooms w !! k = Some r → changes c r r' → caused_by e c → I k r'.

Lemma evolves_rooms_keyed e w w' :
  (∀ sock roomId username, e ≠ RoomJoin sock roomId username) →
  rooms_keyed I w → evolves e w w' → rooms_keyed I w'.
Proof.
  intros Hne Hall [Hsame | (k & r & r' & c & Hrooms & Hsrc & Hch & Hby)].
  - intros k r. rewrite Hsame. apply Hall.
  - destruct Hsrc as [[Hk _] | [_ (sock & roomId & username & -> & _)]];
      [|by destruct (Hne sock roomId username)].
    intros k0 r0. rewrite Hrooms. destruct (decide (k = k0)) as [<-|Hk0].
    + rewrite lookup_insert_eq. intros [= <-].
      eapply I_changes; [done | by apply Hall | done..].
    + rewrite lookup_insert_ne by done. apply Hall.
Qed.

Lemma step_rooms_keyed e w : rooms_keyed I w → rooms_keyed I (step w e).
Proof.
  intros Hall. unfold step. destruct e; cbn [handle].
  - by apply I_join.
  - apply (evolves_rooms_keyed (ChatMessage roomId userId text) w); [done | done | apply chat_evolves].
  - apply (evolves_rooms_keyed (HostAction roomId userId action time) w); [done | done | apply host_action_evolves].
  - apply (evolves_rooms_keyed (HostTake roomId userId) w); [done | done | apply host_take_evolves].
  - intros k r. rewrite disconnecting_rooms.
    generalize (filter (λ r, r ≠ sock) (default [] (socket_rooms w !! sock))).
    intros joined. revert w Hall k r.
    induction joined as [|roomId rest IH]; intros w Hall; [done|].
    rewrite departures_step. apply IH.
    apply (evolves_rooms_keyed (Disconnecting sock) w); [done | done | apply leave_room_evolves].
  - apply (evolves_rooms_keyed (Uploaded roomId meta) w); [done | done | apply upload_evolves].
Qed.

Lemma run_rooms_keyed es : rooms_keyed I (run init es).
Proof.
  assert (∀ w, rooms_keyed I w → rooms_keyed I (run w es)) as Hrun.
  { induction es as [|e es' IH]; intros w Hw; [done|].
    cbn [run fold_left]. by apply IH, step_rooms_keyed. }
  apply Hrun. intros k r. cbn [init rooms]. by rewrite lookup_empty.
Qed.
End KeyedInvariants.

Section DirectoryInvariants.
Context `{Runtime}.

Lemma truthy_nonempty (s : string) : JS.truthy s = true ↔ s ≠ "".
Proof. by destruct s. Qed.

Lemma truthy_of_length (s : string) : String.length s = 36 → JS.truthy s = true.
Proof. by destruct s. Qed.

Lemma run_filed (es : list Event) : rooms_keyed filed (run init es).
Proof.
  apply (run_rooms_keyed filed).
  - intros sock roomId username w Hall.
    destruct (join_effect sock roomId username w)
      as (key & r0 & r' & u & Hrooms & Hsrc & (Hid & _) & _).
    intros k r. rewrite Hrooms. destruct (decide (key = k)) as [<-|Hk].
    + rewrite lookup_insert_eq. intros [= <-]. unfold filed. rewrite Hid.
      destruct Hsrc as [[Hr0 ->] | (_ & -> & ->)]; [by apply Hall|].
      split; [done|]. destruct (JS.truthy roomId) eqn:Htr; [done|].
      apply uuid_string_own_key.
    + rewrite lookup_insert_ne by done. apply Hall.
  - intros e w k r r' c _ [Hid Htr] _ (Hid' & _) _. split; [congruence | done].
Qed.

(** X2. In every reachable state each room of the directory is stored under
    its own id, and no room is stored under the empty id. *)
Theorem rooms_filed_under_their_id (es : list Event) (k : string) (r : Room.t) :
  rooms (run init es) !! k = Some r → Room.id r = k ∧ k ≠ "".
Proof.
  intros Hr. rewrite <- truthy_nonempty. by apply (run_filed es).
Qed.

Lemma run_hosted (es : list Event) :
  rooms_keyed hosted (run init es).
Proof.
  apply (run_rooms_keyed hosted).
  - intros sock roomId username w Hall.
    destruct (join_effect sock roomId username w)
      as (key & r0 & r' & u & Hrooms & Hsrc & (_ & _ & Hc) & Hlen & _).
    destruct Hc as (_ & _ & Hus & Hh & _).
    intros k r. rewrite Hrooms. destruct (decide (key = k)) as [<-|Hk].
    + rewrite lookup_insert_eq. intros [= <-].
      assert (hosted key r0) as [Hids0 Hhost0].
      { destruct Hsrc as [[Hr0 ->] | (_ & -> & _)]; [by apply Hall|].
        split; [by intros ? ?%elem_of_nil | done]. }
      split.
      * intros v. rewrite Hus. intros [->|Hv]%elem_of_put; [|by apply Hids0].
        by apply truthy_of_length.
      * intros _. unfold Room.no_host in *. rewrite Hh.
        destruct (Room.hostId r0) as [h|] eqn:Hh0.
        -- destruct (JS.truthy h) eqn:Htr; cbn [negb].
           ++ by rewrite Htr.
           ++ by rewrite truthy_of_length.
        -- by rewrite truthy_of_length.
    + rewrite lookup_insert_ne by done. apply Hall.
  - intros e w k r r' c Hne [Hids0 Hhost0] _ (_ & _ & Hc) Hby.
    destruct c.
    + destruct e; try done. by destruct (Hne sock0 roomId username0).
    + destruct Hc as (Hown & Hus & Hh & _).
      apply own_Some in Hown as [Hid Hin]. split.
      * intros v. rewrite Hus. intros [->|Hv]%elem_of_put; [|by apply Hids0].
        change (User.id (Room.rename newName u)) with (User.id u).
        by apply Hids0.
      * intros _. unfold Room.no_host in *. rewrite Hh. apply Hhost0.
        intros Hnil. rewrite Hnil in Hin. by apply elem_of_nil in Hin.
    + destruct Hc as (_ & _ & Hus & Hh & _). unfold hosted, Room.no_host in *.
      by rewrite Hus, Hh.
    + destruct Hc as (Hget & Hh & Hus & _). unfold hosted. rewrite Hus.
      split; [done|].
      intros _. unfold Room.no_host. rewrite Hh.
      destruct (JS.truthy userId) eqn:Htr; [done|]. exfalso.
      assert (userId = "") as -> by (by destruct userId).
      destruct Hget as [pn Hget].
      assert (JS.found (Room.getUser pn r "") = None) as Hnone;
        [|by rewrite Hnone in Hget; destruct Hget].
      apply getUser_None. split; [|by apply not_inherited_in].
      destruct (Room.own "" (Room.users r)) as [v|] eqn:Hown; [|done].
      apply own_Some in Hown as [Hid Hin]. apply Hids0 in Hin.
      by rewrite Hid in Hin.
    + destruct Hc as (Hsock & Hus & Hh & _). split.
      * intros v. rewrite Hus. intros [Hv _]%elem_of_del. by apply Hids0.
      * intros Hleft. unfold Room.no_host in *. rewrite Hh.
        case_bool_decide as Hwas.
        -- destruct (Room.users r') as [|n rest] eqn:Hrest; [done|].
           cbn [head fmap option_fmap option_map]. rewrite <- Hrest in *.
           assert (n ∈ Room.users r') as Hn by (rewrite Hrest; left).
           rewrite Hus in Hn. apply elem_of_del in Hn as [Hn _].
           by rewrite (Hids0 n Hn).
        -- apply Hhost0. intros Hnil. apply Hleft. rewrite Hus, Hnil. done.
    + destruct Hc as (_ & Hus & Hh & _). unfold hosted, Room.no_host in *.
      by rewrite Hus, Hh.
    + destruct Hc as (Hus & Hh & _). unfold hosted, Room.no_host in *.
      by rewrite Hus, Hh.
Qed.

(** X4. In every reachable state the ids of the members are not empty, and
    a room that has members has a host: its [hostId] is a non-empty
    string. *)
Theorem rooms_with_members_have_host (es : list Event) (k : string) (r : Room.t) :
  rooms (run init es) !! k = Some r →
  (∀ u, u ∈ Room.users r → User.id u ≠ "")
  ∧ (Room.users r ≠ [] → ∃ h, Room.hostId r = Some h ∧ h ≠ "").
Proof.
  intros Hr.
  destruct (run_hosted es k r Hr) as [Hids Hhost].
  split.
  - intros u Hu. by apply truthy_nonempty, Hids.
  - intros Hne. specialize (Hhost Hne). unfold Room.no_host in Hhost.
    destruct (Room.hostId r) as [h|]; [|done]. exists h. split; [done|].
    apply truthy_nonempty. by destruct (JS.truthy h).
Qed.

(** X3. No handler removes a room: a room id the directory holds stays in
    the directory along every further run. *)
Theorem rooms_never_removed (w : World) (es : list Event) (k : string) :
  is_Some (rooms w !! k) → is_Some (rooms (run w es) !! k).
Proof.
  assert (∀ e w w', evolves e w w' →
            is_Some (rooms w !! k) → is_Some (rooms w' !! k)) as Hev.
  { intros e w0 w' [-> | (k0 & r & r' & c & -> & _)]; [done|].
    intros Hk. destruct (decide (k0 = k)) as [->|Hne].
    - rewrite lookup_insert_eq. by eexists.
    - by rewrite lookup_insert_ne. }
  revert w. induction es as [|e es' IH]; intros w Hk; [done|].
  cbn [run fold_left]. apply IH. unfold step. destruct e; cbn [handle].
  - eapply Hev; [apply join_evolves | done].
  - eapply Hev; [apply chat_evolves | done].
  - eapply Hev; [apply host_action_evolves | done].
  - eapply Hev; [apply host_take_evolves | done].
  - rewrite disconnecting_rooms.
    generalize (filter (λ r, r ≠ sock) (default [] (socket_rooms w !! sock))).
    intros joined. revert w Hk.
    induction joined as [|roomId rest IHj]; intros w Hk; [done|].
    rewrite departures_step. apply IHj.
    eapply Hev; [apply leave_room_evolves | done].
  - eapply Hev; [apply upload_evolves | done].
Qed.
End DirectoryInvariants.

(** ** What each handler does to its room *)

Section HandlerEffects.
Context `{Runtime}.

(** [addLog] in full: the entry made, and the log it leaves; the oldest
    entry goes when the log already holds 500 or more. *)
Lemma addLog_full type text r t :
  Room.addLog type text r t
  = (Log.mk (JS.uuid_string (entropy t))
       (if JS.truthy type then type else "info") text (clock (S t)),
     Room.with_logs r
       (drop (if Nat.leb 500 (length (Room.logs r)) then 1 else 0) (Room.logs r)
        ++ [Log.mk (JS.uuid_string (entropy t))
              (if JS.truthy type then type else "info") text (clock (S t))]),
     S (S t)).
Proof.
  unfold Room.addLog, bind, uuidv4, now, ret. rewrite length_app. cbn [length].
  destruct (Nat.leb_spec 500 (length (Room.logs r))) as [Hge|Hlt].
  - rewrite (proj2 (Nat.ltb_lt _ _)) by lia. do 3 f_equal.
    destruct (Room.logs r) as [|l ls]; [simpl in Hge; lia | done].
  - rewrite (proj2 (Nat.ltb_ge _ _)) by lia. by rewrite drop_0.
Qed.

(** Two entries added in a row are the last two of the log. *)
Lemma drop_two_logs (logs : list Log.t) (h j : Log.t) :
  let b1 := if Nat.leb 500 (length logs) then 1 else 0 in
  let b2 := if Nat.leb 500 (length (drop b1 logs ++ [h])) then 1 else 0 in
  drop b2 (drop b1 logs ++ [h]) ++ [j] = drop (b1 + b2) logs ++ [h; j]
  ∧ b1 + b2 ≤ 2.
Proof.
  cbv zeta. rewrite length_app, length_drop. cbn [length].
  destruct (Nat.leb_spec 500 (length logs)) as [Hge|Hlt].
  - destruct (Nat.leb_spec 500 (length logs - 1 + 1)) as [Hge2|Hlt2].
    + split; [|lia]. rewrite drop_app_le by (rewrite length_drop; lia).
      by rewrite drop_drop, <- app_assoc.
    + split; [|lia]. by rewrite drop_0, Nat.add_0_r, <- app_assoc.
  - destruct (Nat.leb_spec 500 (length logs - 0 + 1)) as [Hge2|Hlt2].
    + split; [|lia]. rewrite drop_0.
      rewrite drop_app_le by lia. by rewrite <- app_assoc.
    + split; [|lia]. by rewrite !drop_0, <- app_assoc.
Qed.

Lemma with_room_same (w : World) (roomId : string) (room : Room.t) :
  rooms w !! roomId = Some room → with_room w roomId room (tick w) = w.
Proof.
  intros Hroom. unfold with_room. rewrite insert_id by done. by destruct w.
Qed.

(** X5. A join to a room the directory holds adds the new member to its
    members.  When the room has a host, the host stays and one entry,
    [user_joined], is appended to the log; when it has none, the joiner
    becomes host and a [host_assigned] entry precedes the [user_joined]
    entry. *)
Theorem join_existing_room (w : World) (sock roomId : string)
    (username : option string) (room : Room.t) :
  rooms w !! roomId = Some room →
  let out := on_room_join sock roomId username w in
  ∃ room' u joinedLog,
    reply out = Some (OkUser u)
    ∧ rooms (world out) = <[roomId := room']> (rooms w)
    ∧ User.socketId u = sock
    ∧ Room.users room' = Room.put u (Room.users room)
    ∧ Log.type joinedLog = "user_joined"
    ∧ Log.text joinedLog = User.name u +:+ " joined"
    ∧ if Room.no_host room then
        Room.hostId room' = Some (User.id u)
        ∧ ∃ hostLog b,
            b ≤ 2
            ∧ Room.logs room' = drop b (Room.logs room) ++ [hostLog; joinedLog]
            ∧ Log.type hostLog = "host_assigned"
            ∧ Log.text hostLog = User.name u +:+ " became host"
      else
        Room.hostId room' = Room.hostId room
        ∧ ∃ b, b ≤ 1 ∧ Room.logs room' = drop b (Room.logs room) ++ [joinedLog].
Proof.
  intros Hroom out. subst out.
  remember (on_room_join sock roomId username w) as out eqn:Hout.
  unfold on_room_join in Hout. rewrite Hroom in Hout.
  unfold join_room in Hout. unfold bind at 1 in Hout.
  destruct (Room.addUser sock username room (tick w)) as [[u r1] t1] eqn:Euser.
  apply addUser_inv in Euser as (-> & _ & Hsock & _).
  unfold bind at 1 in Hout.
  change (Room.no_host (Room.with_users room (Room.put u (Room.users room))))
    with (Room.no_host room) in Hout.
  destruct (Room.no_host room) eqn:Hhost.
  - unfold bind at 1 in Hout. rewrite addLog_full in Hout.
    unfold ret at 1 in Hout. unfold bind at 1 in Hout.
    rewrite addLog_full in Hout. unfold ret in Hout.
    match type of Hout with
    | context [room_user_joined _ ?j] => pose (joinedLog := j)
    end.
    subst out. cbn [world rooms reply fst snd].
    eexists. exists u, joinedLog.
    split_and!; [reflexivity | reflexivity | done | reflexivity | reflexivity
                 | reflexivity | reflexivity | ].
    cbn [Room.logs Room.with_logs Room.setHost Room.with_hostId Room.with_users].
    pose proof (drop_two_logs (Room.logs room)) as Htwo. cbv zeta in Htwo.
    match goal with
    | |- context [drop _ (drop _ _ ++ [?h]) ++ [?j]] =>
        destruct (Htwo h j) as [Heq Hle]; exists h; eexists;
        split_and!; [exact Hle | exact Heq | done | done]
    end.
  - unfold ret at 1 in Hout. unfold bind at 1 in Hout.
    rewrite addLog_full in Hout. unfold ret in Hout.
    match type of Hout with
    | context [room_user_joined _ ?j] => pose (joinedLog := j)
    end.
    subst out. cbn [world rooms reply fst snd].
    eexists. exists u, joinedLog.
    split_and!; [reflexivity | reflexivity | done | reflexivity | reflexivity
                 | reflexivity | reflexivity | ].
    cbn [Room.logs Room.with_logs Room.with_users].
    eexists. split; [|reflexivity]. destruct (Nat.leb 500 _); lia.
Qed.

Lemma last_last_n {A} (n : nat) (l : list A) : 0 < n → last (last_n n l) = last l.
Proof.
  intros Hn. unfold last_n. destruct (last l) as [x|] eqn:Hlast.
  - apply last_Some in Hlast as [l' ->]. rewrite length_app. cbn [length].
    rewrite drop_app_le by lia. apply last_snoc.
  - apply last_None in Hlast as ->. done.
Qed.

Lemma join_room_emits sock roomId username r t r' out rep t' :
  join_room sock roomId username r t = (r', out, rep, t') →
  ∃ u joinedLog,
    rep = OkUser u
    ∧ out = [ mkEmit (ToSocket sock)
                (room_state roomId (Room.userList r') (Room.hostId r')
                   (Room.video r') (last_n 50 (Room.logs r'))
                   (Room.playbackState r'));
              mkEmit (ToRoomExcept roomId sock) (room_user_joined u joinedLog);
              mkEmit (ToRoom roomId) (room_user_list (Room.userList r')) ]
    ∧ last (Room.logs r') = Some joinedLog
    ∧ Log.type joinedLog = "user_joined"
    ∧ Log.text joinedLog = User.name u +:+ " joined"
    ∧ Room.users r' = Room.put u (Room.users r).
Proof.
  unfold join_room. unfold bind at 1.
  destruct (Room.addUser sock username r t) as [[u r1] t1] eqn:Euser.
  apply addUser_inv in Euser as (-> & _).
  unfold bind at 1.
  destruct (Room.no_host _).
  - unfold bind at 1.
    destruct (Room.addLog _ _ _ t1) as [[log r2] t2] eqn:Elog.
    apply addLog_inv in Elog as (_ & Hu & _).
    unfold ret at 1. unfold bind at 1.
    destruct (Room.addLog _ _ r2 t2) as [[log' r3] t3] eqn:Elog'.
    apply addLog_inv in Elog' as (_ & Hu' & _ & _ & _ & Hlast & Hty & Htx & _).
    unfold ret. intros [= <- <- <- <-]. exists u, log'.
    split_and!; try done. by rewrite Hu', Hu.
  - unfold ret at 1. unfold bind at 1.
    destruct (Room.addLog _ _ _ t1) as [[log r2] t2] eqn:Elog.
    apply addLog_inv in Elog as (_ & Hu & _ & _ & _ & Hlast & Hty & Htx & _).
    unfold ret. intros [= <- <- <- <-]. exists u, log.
    split_and!; done.
Qed.

(** X6. The snapshot [room:state] a join sends to the joining socket is
    taken from the room as the join leaves it: its member list contains the
    joiner, it carries the room's host, video and playback state, and its
    logs are the last entries of the room's log, at most 50, ending with the
    joiner's [user_joined] entry.  The others get that entry, and the room
    gets the member list. *)
Theorem join_snapshot (sock roomId : string) (username : option string)
    (w : World) :
  let out := on_room_join sock roomId username w in
  ∃ key room' u joinedLog,
    rooms (world out) !! key = Some room'
    ∧ reply out = Some (OkUser u)
    ∧ emits out
      = [ mkEmit (ToSocket sock)
            (room_state roomId (Room.userList room') (Room.hostId room')
               (Room.video room') (last_n 50 (Room.logs room'))
               (Room.playbackState room'));
          mkEmit (ToRoomExcept roomId sock) (room_user_joined u joinedLog);
          mkEmit (ToRoom roomId) (room_user_list (Room.userList room')) ]
    ∧ (User.id u, User.name u) ∈ Room.userList room'
    ∧ length (last_n 50 (Room.logs room')) ≤ 50
    ∧ last (last_n 50 (Room.logs room')) = Some joinedLog
    ∧ Log.type joinedLog = "user_joined"
    ∧ Log.text joinedLog = User.name u +:+ " joined".
Proof.
  intros out. subst out.
  remember (on_room_join sock roomId username w) as out eqn:Hout.
  unfold on_room_join in Hout.
  destruct (match rooms w !! roomId with
            | Some room => (roomId, room, rooms w, tick w)
            | None =>
                let '(room, m, t) := Rooms.create roomId (rooms w) (tick w) in
                (Room.id room, room, m, t)
            end) as [[[key room] m] t].
  destruct (join_room sock roomId username room t)
    as [[[r' ems] rep] t'] eqn:Ejoin.
  apply join_room_emits in Ejoin
    as (u & joinedLog & -> & -> & Hlast & Hty & Htx & Hus).
  subst out. cbn [world rooms reply emits].
  exists key, r', u, joinedLog. split_and!; try done.
  - apply lookup_insert_eq.
  - unfold Room.userList. rewrite Hus.
    apply (list_elem_of_fmap_2 (λ v, (User.id v, User.name v))).
    pose proof (own_put_eq u (Room.users room)) as Hown.
    by apply own_Some in Hown as [_ Hin].
  - apply length_last_n.
  - rewrite last_last_n by lia. done.
Qed.

(** X7. A chat message of a member that is no rename command is appended
    to the log as a [chat] entry reading [<name>: <text>] and sent to the
    room with the member's name; members, host, video and playback state
    stay as they are, and the answer is ok. *)
Theorem chat_message_logged_and_sent (w : World) (roomId userId text : string)
    (room : Room.t) (user : User.t) :
  rooms w !! roomId = Some room →
  Room.own userId (Room.users room) = Some user →
  JS.startsWith "/name" (JS.trim text) = false →
  let out := on_chat_message roomId userId text w in
  reply out = Some Ok
  ∧ ∃ id time log b,
      emits out
      = [ mkEmit (ToRoom roomId)
            (chat_message id userId (Some (User.name user)) text time) ]
      ∧ rooms (world out)
        = <[roomId := Room.with_logs room (drop b (Room.logs room) ++ [log])]>
            (rooms w)
      ∧ b ≤ 1
      ∧ Log.type log = "chat"
      ∧ Log.text log = User.name user +:+ ": " +:+ text.
Proof.
  intros Hroom Hown Hcmd out. subst out.
  unfold on_chat_message. rewrite Hroom, (getUser_own _ _ _ _ Hown), Hcmd.
  cbn [JS.found uuidv4 now name_of JS.show]. rewrite addLog_full.
  cbn [reply emits world rooms with_room]. split; [done|].
  do 4 eexists. split_and!; [reflexivity | reflexivity | | done | done].
  destruct (Nat.leb 500 _); lia.
Qed.


(** X9. A [host:action] of the host with an action other than [play],
    [pause] and [seek] is answered ok although nothing happens: the server
    state is unchanged, nothing is logged and nothing is emitted. *)
Theorem host_action_unrecognised (w : World) (roomId userId action : string)
    (time : option Q) (room : Room.t) :
  rooms w !! roomId = Some room →
  Room.hostId room = Some userId →
  action ∉ ["play"; "pause"; "seek"] →
  on_host_action roomId userId action time w = mkOutcome w [] (Some Ok).
Proof.
  intros Hroom Hhost Hact. unfold on_host_action. rewrite Hroom.
  rewrite bool_decide_eq_false_2 by (intros Hne; by apply Hne).
  unfold host_branch.
  destruct (String.eqb_spec action "play") as [->|_];
    [exfalso; apply Hact; set_solver|].
  destruct (String.eqb_spec action "pause") as [->|_];
    [exfalso; apply Hact; set_solver|].
  destruct (String.eqb_spec action "seek") as [->|_];
    [exfalso; apply Hact; set_solver|].
  unfold ret. by rewrite with_room_same.
Qed.

(** X10. For a [roomId] the directory does not hold, no handler but the
    join touches the server state or emits anything: [host:action] and
    [host:take] are answered [room_not_found], a chat message and an upload
    notification are dropped without an answer. *)
Theorem unknown_room_untouched (w : World) (roomId userId text action : string)
    (time : option Q) (meta : Video.t) :
  rooms w !! roomId = None →
  on_host_action roomId userId action time w
  = mkOutcome w [] (Some (Fail (Some "room_not_found")))
  ∧ on_host_take roomId userId w
    = mkOutcome w [] (Some (Fail (Some "room_not_found")))
  ∧ on_chat_message roomId userId text w = mkOutcome w [] None
  ∧ on_upload roomId meta w = mkOutcome w [] None
  ∧ (∀ sock, leave_room sock roomId w = (w, [])).
Proof.
  intros Hroom.
  unfold on_host_action, on_host_take, on_chat_message, on_upload, leave_room.
  rewrite Hroom. split_and!; try done. by destruct (JS.truthy roomId).
Qed.

(** X11. An upload notification for a room the directory holds replaces
    the room's video by the new metadata as a whole, appends a
    [video_uploaded] entry reading [<filename> uploaded], and sends the room
    the metadata with that very entry; members, host and playback state are
    unchanged.  With an empty [roomId] nothing happens. *)
Theorem upload_replaces_video (w : World) (roomId : string) (meta : Video.t)
    (room : Room.t) :
  rooms w !! roomId = Some room →
  roomId ≠ "" →
  let out := on_upload roomId meta w in
  (∃ log b,
     b ≤ 1
     ∧ rooms (world out)
       = <[roomId := Room.with_logs (Room.with_video room (Some meta))
                       (drop b (Room.logs room) ++ [log])]> (rooms w)
     ∧ Log.type log = "video_uploaded"
     ∧ Log.text log = Video.filename meta +:+ " uploaded"
     ∧ emits out = [ mkEmit (ToRoom roomId) (video_uploaded meta (Some log)) ])
  ∧ on_upload "" meta w = mkOutcome w [] None.
Proof.
  intros Hroom Hne out. subst out. split; [|done].
  unfold on_upload. rewrite (proj2 (truthy_nonempty roomId) Hne), Hroom.
  rewrite addLog_full. cbn [world rooms emits with_room].
  do 2 eexists. split_and!; [| reflexivity | reflexivity | reflexivity |].
  - destruct (Nat.leb 500 _); lia.
  - cbn [Room.logs Room.with_logs]. by rewrite last_snoc.
Qed.

(** X12. [host:take] of a member makes that member the host whoever the
    host was, appends a [host_changed] entry naming the member and the
    previous host ([none] when there was no host, the name of the previous
    host when that is a member with a name), sends the room the new [hostId]
    with that entry and then the member list, and answers ok. *)
Theorem take_host_by_member (w : World) (roomId userId : string)
    (room : Room.t) (user : User.t) :
  rooms w !! roomId = Some room →
  Room.own userId (Room.users room) = Some user →
  let out := on_host_take roomId userId w in
  reply out = Some Ok
  ∧ ∃ log previous b,
      b ≤ 1
      ∧ rooms (world out)
        = <[roomId := Room.with_logs (Room.setHost userId room)
                        (drop b (Room.logs room) ++ [log])]> (rooms w)
      ∧ Log.type log = "host_changed"
      ∧ Log.text log
        = User.name user +:+ " took host control (previous host: "
            +:+ previous +:+ ")"
      ∧ (Room.hostId room = None → previous = "none")
      ∧ (∀ p q, Room.hostId room = Some p → p ≠ "" →
                Room.own p (Room.users room) = Some q → User.name q ≠ "" →
                previous = User.name q)
      ∧ emits out
        = [ mkEmit (ToRoom roomId) (host_changed userId log);
            mkEmit (ToRoom roomId) (room_user_list (Room.userList room)) ].
Proof.
  intros Hroom Hown out. subst out.
  unfold on_host_take. rewrite Hroom, (getUser_own _ _ _ _ Hown).
  cbn [JS.found].
  rewrite addLog_full. cbn [reply world rooms emits with_room name_of JS.show].
  split; [done|]. do 3 eexists.
  split_and!; [| reflexivity | reflexivity | reflexivity | | | reflexivity].
  - destruct (Nat.leb 500 _); lia.
  - by intros ->.
  - intros p q -> Hp Hq Hname.
    rewrite (proj2 (truthy_nonempty p) Hp).
    change (Room.getUser (proto_name w) (Room.setHost userId room) p)
      with (Room.getUser (proto_name w) room p).
    rewrite (getUser_own _ _ _ _ Hq). cbn [name_of].
    by rewrite (proj2 (truthy_nonempty _) Hname).
Qed.

(** The departure of a member that is not the host. *)
Lemma leave_room_member sock roomId w room user :
  rooms w !! roomId = Some room →
  Room.getUserBySocket room sock = Some user →
  Room.hostId room ≠ Some (User.id user) →
  ∃ log b,
    b ≤ 1
    ∧ (leave_room sock roomId w).1
      = with_room w roomId
          (Room.with_logs (Room.removeUser (User.id user) room)
             (drop b (Room.logs room) ++ [log]))
          (S (S (tick w)))
    ∧ Log.type log = "user_left"
    ∧ Log.text log = User.name user +:+ " left"
    ∧ (leave_room sock roomId w).2
      = [ mkEmit (ToRoom roomId) (room_user_left (User.id user) log);
          mkEmit (ToRoom roomId)
            (room_user_list (Room.userList (Room.removeUser (User.id user) room))) ].
Proof.
  intros Hroom Hsock Hhost. unfold leave_room. rewrite Hroom, Hsock.
  rewrite addLog_full.
  cbn [Room.hostId Room.with_logs Room.removeUser Room.with_users].
  rewrite bool_decide_eq_false_2 by done. cbn [fst snd].
  do 2 eexists. split_and!; [| reflexivity | reflexivity | reflexivity | reflexivity].
  destruct (Nat.leb 500 _); lia.
Qed.

(** X13. In a reachable state, let a socket disconnect that has joined a
    room in which its member is not the host.  The member is removed, a
    [user_left] entry reading [<name> left] is appended, and the host, the
    video and the playback state stay as they are. *)
Theorem member_disconnects (es : list Event) (sock roomId : string)
    (joined : list string) (room : Room.t) (user : User.t) :
  let w := run init es in
  socket_rooms w !! sock = Some joined →
  roomId ∈ joined →
  roomId ≠ sock →
  rooms w !! roomId = Some room →
  Room.getUserBySocket room sock = Some user →
  Room.hostId room ≠ Some (User.id user) →
  ∃ log b,
    b ≤ 1
    ∧ rooms (world (on_disconnecting sock w)) !! roomId
      = Some (Room.with_logs (Room.removeUser (User.id user) room)
                (drop b (Room.logs room) ++ [log]))
    ∧ Log.type log = "user_left"
    ∧ Log.text log = User.name user +:+ " left".
Proof.
  intros w.
  pose proof (run_socket_rooms_distinct es) as Hdistinct.
  fold w in Hdistinct. clearbody w.
  intros Hjoined Hin Hne Hroom Hsock Hhost.
  rewrite disconnecting_rooms, Hjoined.
  change (default [] (Some joined)) with joined.
  destruct (departures_at sock (filter (λ r, r ≠ sock) joined) w roomId)
    as (w1 & Hsame & ->).
  { apply NoDup_filter. by eapply Hdistinct. }
  { by apply list_elem_of_filter. }
  rewrite Hroom in Hsame.
  destruct (leave_room_member sock roomId w1 room user Hsame Hsock Hhost)
    as (log & b & Hb & -> & Hty & Htx & _).
  exists log, b. cbn [rooms with_room]. rewrite lookup_insert_eq. done.
Qed.

(** X14. A join with an empty [roomId] creates a room under a fresh uuid
    with the joiner as its only member and host, while the socket is
    entered in the room named by the empty string.  In a reachable state no
    room is stored under the empty id, so the later disconnect of that
    socket does not find the room: the member stays in it. *)
Theorem join_without_room_id (es : list Event) (sock : string)
    (username : option string) :
  let w := run init es in
  let out := on_room_join sock "" username w in
  let key := JS.uuid_string (entropy (tick w)) in
  ∃ room' u,
    reply out = Some (OkUser u)
    ∧ rooms (world out) !! "" = None
    ∧ rooms (world out) !! key = Some room'
    ∧ Room.id room' = key
    ∧ Room.users room' = [u]
    ∧ User.socketId u = sock
    ∧ Room.hostId room' = Some (User.id u)
    ∧ "" ∈ default [] (socket_rooms (world out) !! sock)
    ∧ (key ∉ default [] (socket_rooms w !! sock) →
       rooms (world (on_disconnecting sock (world out))) !! key = Some room').
Proof.
  intros w.
  assert (rooms w !! "" = None) as Hnone.
  { destruct (rooms w !! "") as [r|] eqn:Hr; [|done].
    by destruct (run_filed es "" r Hr) as [_ ?]. }
  clearbody w. intros out key.
  destruct (join_effect sock "" username w)
    as (key' & r0 & r' & u & Hrooms & Hsrc & (Hid & _ & Hc) & Hlen & Hreply).
  destruct Hsrc as [[Hsome _] | (_ & -> & Hkey)]; [congruence|].
  cbn [JS.truthy String.eqb negb] in Hkey. fold key in Hkey. subst key'.
  destruct Hc as (Hsock & _ & Hus & Hh & _).
  assert (key ≠ "") as Hkne.
  { apply truthy_nonempty. apply uuid_string_own_key. }
  exists r', u. fold out in Hrooms, Hreply.
  assert (socket_rooms (world out) = socket_join sock "" (socket_rooms w)) as Hsr
    by apply join_socket_rooms.
  split_and!; try done.
  - by rewrite Hrooms, lookup_insert_ne.
  - by rewrite Hrooms, lookup_insert_eq.
  - rewrite Hsr. unfold socket_join. rewrite lookup_insert_eq. cbn [default].
    case_bool_decide as Hin; [done|]. apply elem_of_app. right. left.
  - intros Hfresh. rewrite disconnecting_rooms, departures_frame.
    + by rewrite Hrooms, lookup_insert_eq.
    + rewrite Hsr. unfold socket_join. rewrite lookup_insert_eq. cbn [default].
      intros [_ Hin]%list_elem_of_filter.
      case_bool_decide as Hhas; [done|].
      apply elem_of_app in Hin as [Hin|Hin%list_elem_of_singleton]; done.
Qed.

End HandlerEffects.


(** ** The logger *)

Section LoggerProperties.
Context `{Runtime}.
Variable pn : option string.

Lemma push_inherited roomId log (store : Logger.t) t :
  JS.is_inherited_in pn roomId = true → store !! roomId = None →
  Logger.push pn roomId log store t = (Logger.NotAFunction, S t).
Proof.
  intros Hinh Hnone. unfold Logger.push, bind, now, ret.
  by rewrite Hnone, Hinh, Hnone.
Qed.

Lemma push_stored roomId log (store : Logger.t) t :
  JS.is_inherited_in pn roomId = false →
  length (default [] (store !! roomId)) ≤ 1000 →
  Logger.push pn roomId log store t
  = (Logger.Stored
       (<[roomId := last_n 1000 (default [] (store !! roomId)
                                 ++ [<["time" := clock t]> log])]> store),
     S t).
Proof.
  intros Hinh Hlen. unfold Logger.push, bind, now, ret. rewrite Hinh.
  assert (∀ l : list Logger.Fields, length l ≤ 1000 →
            (if Nat.ltb 1000 (length (l ++ [<["time" := clock t]> log]))
             then tail (l ++ [<["time" := clock t]> log])
             else l ++ [<["time" := clock t]> log])
            = last_n 1000 (l ++ [<["time" := clock t]> log])) as Htrim.
  { intros l Hl. unfold last_n. rewrite length_app. cbn [length].
    destruct (Nat.ltb_spec 1000 (length l + 1)).
    - replace (length l + 1 - 1000) with 1 by lia. by destruct (l ++ _).
    - by replace (length l + 1 - 1000) with 0 by lia. }
  destruct (store !! roomId) as [logs|] eqn:Hstore.
  - rewrite Hstore. cbn [default] in *. by rewrite Htrim.
  - rewrite lookup_insert_eq. cbn [default] in *.
    rewrite Htrim by done. by rewrite insert_insert_eq.
Qed.

Lemma pushes_kept ps (store : Logger.t) t (made : string → list Logger.Fields) :
  (∀ k, kept pn store k (made k)) →
  ∀ k, kept pn (pushes pn ps store t).1 k (made k ++ stamped t ps k).
Proof.
  revert store t made.
  induction ps as [|[roomId log] rest IH]; intros store t made Hkept k.
  - cbn [pushes stamped ret fst]. rewrite app_nil_r. apply Hkept.
  - cbn [pushes stamped]. unfold bind at 1.
    destruct (Logger.push pn roomId log store t) as [p t1] eqn:Epush.
    rewrite app_assoc.
    assert (t1 = S t ∧
            ∀ k, kept pn (Logger.after p store) k
                   (made k ++ (if String.eqb roomId k
                               then [<["time" := clock t]> log] else [])))
      as [-> Hnext].
    { clear IH k. pose proof (Hkept roomId) as Hroom. unfold kept in Hroom.
      destruct (JS.is_inherited_in pn roomId) eqn:Hinh.
      - rewrite (push_inherited _ _ _ _ Hinh Hroom) in Epush.
        injection Epush as <- <-. split; [done|]. intros k. cbn [Logger.after].
        destruct (String.eqb_spec roomId k) as [<-|Hne].
        + unfold kept. by rewrite Hinh.
        + rewrite app_nil_r. apply Hkept.
      - rewrite push_stored in Epush; [|done|].
        2: { destruct Hroom as [[-> _] | [-> _]];
               [simpl; lia | apply length_last_n]. }
        injection Epush as <- <-. split; [done|]. intros k. cbn [Logger.after].
        destruct (String.eqb_spec roomId k) as [<-|Hne].
        + unfold kept. rewrite Hinh, lookup_insert_eq. right.
          split; [|by destruct (made roomId)].
          destruct Hroom as [[-> ->] | [-> _]]; [done|].
          change (default [] (Some (last_n 1000 (made roomId))))
            with (last_n 1000 (made roomId)).
          by rewrite last_n_app_last_n.
        + rewrite app_nil_r. pose proof (Hkept k) as Hk. unfold kept in *.
          by rewrite lookup_insert_ne. }
    apply (IH _ _ (λ k, made k ++ (if String.eqb roomId k
                                   then [<["time" := clock t]> log] else []))).
    apply Hnext.
Qed.

Lemma kept_new (k : string) : kept pn Logger.new k [].
Proof. unfold kept. destruct (JS.is_inherited_in pn k); [done | by left]. Qed.

(** X16. After any sequence of [push] calls on a new logger, [get] of a
    room id that names no property of [Object.prototype] (as the engine
    provides it, or with the [name] a rename has added to it) returns the
    entries pushed for that room, each with its time stamp, in the order
    they were pushed, cut to the last 1000; pushes for other rooms do not
    show, and a room never pushed to yields the empty list. *)
Theorem logger_keeps_last_1000 (ps : list (string * Logger.Fields)) (t : nat)
    (k : string) :
  JS.is_inherited_in pn k = false →
  Logger.get pn k (pushes pn ps Logger.new t).1
  = JS.Own (last_n 1000 (stamped t ps k))
  ∧ length (last_n 1000 (stamped t ps k)) ≤ 1000.
Proof.
  intros Hinh. split; [|apply length_last_n].
  pose proof (pushes_kept ps Logger.new t (λ _, []) kept_new k) as Hkept.
  cbn [app] in Hkept. unfold kept in Hkept. rewrite Hinh in Hkept.
  unfold Logger.get. destruct Hkept as [[-> ->] | [-> _]]; [|done].
  by rewrite (proj2 (found_inherited_in pn k) Hinh).
Qed.

End LoggerProperties.

(** ** The page follows the room *)

Section ViewSync.
Context `{Runtime}.


Lemma delivered_nil s roomId v : delivered s roomId [] v = v.
Proof. done. Qed.










Lemma snapshot_with_logs r logs : snapshot (Room.with_logs r logs) = snapshot r.
Proof. done. Qed.




















End ViewSync.

(** ** The properties in the room [abc] *)

Section FurtherScenarios.
#[local] Existing Instance sample_runtime.

Lemma rooms_filed_under_their_id_witness :
  Room.id sample_room = "abc" ∧ "abc" ≠ "".
Proof.
  apply (rooms_filed_under_their_id
           [ RoomJoin "s1" "abc" (Some "Ann"); RoomJoin "s2" "abc" (Some "Bea") ]
           "abc" sample_room).
  vm_compute. reflexivity.
Defined.

Lemma rooms_never_removed_witness :
  is_Some (rooms (run sample_world [ Disconnecting "s1"; Disconnecting "s2" ])
             !! "abc").
Proof.
  apply (rooms_never_removed sample_world
           [ Disconnecting "s1"; Disconnecting "s2" ] "abc").
  vm_compute. eexists. reflexivity.
Defined.

Lemma rooms_with_members_have_host_witness :
  (∀ u, u ∈ Room.users sample_room → User.id u ≠ "")
  ∧ (Room.users sample_room ≠ [] →
     ∃ h, Room.hostId sample_room = Some h ∧ h ≠ "").
Proof.
  apply (rooms_with_members_have_host
           [ RoomJoin "s1" "abc" (Some "Ann"); RoomJoin "s2" "abc" (Some "Bea") ]
           "abc" sample_room).
  vm_compute. reflexivity.
Defined.

Lemma join_existing_room_witness :
  ∃ room' u,
    reply (on_room_join "s3" "abc" (Some "Cy") sample_world) = Some (OkUser u)
    ∧ rooms (world (on_room_join "s3" "abc" (Some "Cy") sample_world)) !! "abc"
      = Some room'
    ∧ Room.users room' = Room.put u (Room.users sample_room)
    ∧ Room.hostId room' = Some (User.id sample_host).
Proof.
  destruct (join_existing_room sample_world "s3" "abc" (Some "Cy") sample_room)
    as (room' & u & joinedLog & Hreply & Hrooms & _ & Hus & _ & _ & Hhost).
  - vm_compute. reflexivity.
  - exists room', u. split_and!; [exact Hreply | | exact Hus | ].
    + rewrite Hrooms. apply lookup_insert_eq.
    + change (Room.no_host sample_room) with false in Hhost.
      destruct Hhost as [-> _]. vm_compute. reflexivity.
Defined.

Lemma chat_message_logged_and_sent_witness :
  ∃ id time,
    emits (on_chat_message "abc" (User.id sample_host) "hello" sample_world)
    = [ mkEmit (ToRoom "abc")
          (chat_message id (User.id sample_host) (Some "Ann") "hello" time) ].
Proof.
  destruct (chat_message_logged_and_sent sample_world "abc" (User.id sample_host)
              "hello" sample_room sample_host)
    as (_ & id & time & log & b & Hemits & _).
  - vm_compute. reflexivity.
  - vm_compute. reflexivity.
  - vm_compute. reflexivity.
  - exists id, time. exact Hemits.
Defined.


Lemma host_action_unrecognised_witness :
  on_host_action "abc" (User.id sample_host) "stop" None sample_world
  = mkOutcome sample_world [] (Some Ok).
Proof.
  apply (host_action_unrecognised sample_world "abc" (User.id sample_host) "stop"
           None sample_room).
  - vm_compute. reflexivity.
  - vm_compute. reflexivity.
  - rewrite !not_elem_of_cons. split_and!; [done | done | done |].
    apply not_elem_of_nil.
Defined.

Lemma unknown_room_untouched_witness :
  on_host_take "xyz" (User.id sample_host) sample_world
  = mkOutcome sample_world [] (Some (Fail (Some "room_not_found")))
  ∧ on_chat_message "xyz" (User.id sample_host) "hello" sample_world
    = mkOutcome sample_world [] None.
Proof.
  destruct (unknown_room_untouched sample_world "xyz" (User.id sample_host)
              "hello" "play" None sample_video)
    as (_ & Htake & Hchat & _).
  - vm_compute. reflexivity.
  - by split.
Defined.

Lemma upload_replaces_video_witness :
  ∃ room',
    rooms (world (on_upload "abc" sample_video sample_world)) !! "abc"
    = Some room'
    ∧ Room.video room' = Some sample_video
    ∧ Room.users room' = Room.users sample_room.
Proof.
  destruct (upload_replaces_video sample_world "abc" sample_video sample_room)
    as ((log & b & _ & Hrooms & _) & _).
  - vm_compute. reflexivity.
  - discriminate.
  - eexists. split; [rewrite Hrooms; apply lookup_insert_eq|]. by split.
Defined.

Lemma take_host_by_member_witness :
  ∃ room' log,
    rooms (world (on_host_take "abc" (User.id sample_guest) sample_world)) !! "abc"
    = Some room'
    ∧ Room.hostId room' = Some (User.id sample_guest)
    ∧ last (Room.logs room') = Some log
    ∧ Log.text log = "Bea took host control (previous host: Ann)".
Proof.
  destruct (take_host_by_member sample_world "abc" (User.id sample_guest)
              sample_room sample_guest)
    as (_ & log & previous & b & _ & Hrooms & _ & Htext & _ & Hprev & _).
  - vm_compute. reflexivity.
  - vm_compute. reflexivity.
  - exists (Room.with_logs (Room.setHost (User.id sample_guest) sample_room)
              (drop b (Room.logs sample_room) ++ [log])), log.
    split_and!.
    + rewrite Hrooms. apply lookup_insert_eq.
    + reflexivity.
    + cbn [Room.logs Room.with_logs]. apply last_snoc.
    + rewrite Htext.
      rewrite (Hprev (User.id sample_host) sample_host);
        [reflexivity | vm_compute; reflexivity | discriminate
        | vm_compute; reflexivity | discriminate].
Defined.

Lemma member_disconnects_witness :
  ∃ room',
    rooms (world (on_disconnecting "s2" sample_world)) !! "abc" = Some room'
    ∧ Room.users room' = [ sample_host ]
    ∧ Room.hostId room' = Some (User.id sample_host).
Proof.
  destruct (member_disconnects
              [ RoomJoin "s1" "abc" (Some "Ann"); RoomJoin "s2" "abc" (Some "Bea") ]
              "s2" "abc" ["abc"] sample_room sample_guest)
    as (log & b & _ & Hrooms & _).
  - vm_compute. reflexivity.
  - left.
  - discriminate.
  - vm_compute. reflexivity.
  - vm_compute. reflexivity.
  - vm_compute. discriminate.
  - eexists. split; [exact Hrooms|]. split; vm_compute; reflexivity.
Defined.

Lemma logger_keeps_last_1000_witness :
  Logger.get None "abc"
    (pushes None [ ("abc", {[ "type" := "chat" ]}); ("xyz", ∅);
                   ("abc", {[ "type" := "user_left" ]}) ] Logger.new 0).1
  = JS.Own [ <["time" := clock 0]> {[ "type" := "chat" ]};
             <["time" := clock 2]> {[ "type" := "user_left" ]} ].
Proof.
  destruct (logger_keeps_last_1000 None
              [ ("abc", {[ "type" := "chat" ]}); ("xyz", ∅);
                ("abc", {[ "type" := "user_left" ]}) ] 0 "abc")
    as [Hget _].
  - reflexivity.
  - exact Hget.
Defined.



End FurtherScenarios.

(** ** Members and ids *)

Section Members.
Context `{Runtime}.

Lemma own_member (us : list User.t) (u : User.t) :
  NoDup (map User.id us) → u ∈ us → Room.own (User.id u) us = Some u.
Proof.
  intros Hnd Hin.
  assert (is_Some (Room.own (User.id u) us)) as [v Hv].
  { apply own_is_Some, list_elem_of_fmap. by exists u. }
  rewrite Hv. f_equal.
  apply own_Some in Hv as [Hid Hv].
  by apply (NoDup_keys_inj us v u).
Qed.

(** X20. In every reachable state the members of a room have distinct
    ids: [getUser] with the id of a member returns that member (whatever
    [Object.prototype.name] holds), removing a member by id removes that
    member and no other, and the member list sent to the pages names each id
    once. *)
Theorem members_found_by_id (es : list Event) (k : string) (r : Room.t)
    (u : User.t) :
  rooms (run init es) !! k = Some r →
  u ∈ Room.users r →
  (∀ pn, Room.getUser pn r (User.id u) = Some (JS.Own u))
  ∧ (∀ v, v ∈ Room.users (Room.removeUser (User.id u) r)
          ↔ v ∈ Room.users r ∧ v ≠ u)
  ∧ NoDup (Room.userList r).*1.
Proof.
  intros Hr Hu. destruct (run_well_formed es k r Hr) as [Hnd _].
  split_and!.
  - intros pn. by apply getUser_own, own_member.
  - intros v. cbn [Room.removeUser Room.users Room.with_users].
    rewrite elem_of_del. split; intros [Hv Hne]; (split; [done|]).
    + by intros ->.
    + intros Hid. by apply Hne, (NoDup_keys_inj (Room.users r)).
  - unfold Room.userList. rewrite <- list_fmap_compose.
    assert ((fst ∘ (λ u, (User.id u, User.name u))) <$> Room.users r
            = map User.id (Room.users r)) as -> by done.
    done.
Qed.

Lemma is_hex_hex_digit (n : N) : is_hex (JS.hex_digit n) = true.
Proof.
  unfold JS.hex_digit.
  assert (N.to_nat (n mod 16) < 16) as Hlt by (pose proof (N.mod_lt n 16); lia).
  revert Hlt. generalize (N.to_nat (n mod 16)). intros i Hlt.
  do 16 (destruct i as [|i]; [reflexivity|]). lia.
Qed.

Lemma before_hex (l : list N) (rest : string) :
  Home.before "-" (string_of_list_ascii (map JS.hex_digit l) +:+ String "-" rest)
  = string_of_list_ascii (map JS.hex_digit l).
Proof.
  induction l as [|n l IH]; [done|]. cbn [map string_of_list_ascii].
  change (String ?c ?a +:+ ?b) with (String c (a +:+ b)).
  cbn [Home.before]. rewrite IH.
  pose proof (is_hex_hex_digit n) as Hhex.
  destruct (Ascii.eqb_spec (JS.hex_digit n) "-") as [Heq|_]; [|done].
  rewrite Heq in Hhex. discriminate.
Qed.

Lemma prefix_append (a b : string) : String.prefix a (a +:+ b) = true.
Proof.
  induction a as [|c a IH]; [by destruct b|].
  change (String c a +:+ b) with (String c (a +:+ b)). cbn [String.prefix].
  destruct (ascii_dec c c) as [_|Hne]; [exact IH | by destruct Hne].
Qed.

(** X21. The id [createRoom] of the Home page navigates to is the run of
    the first eight hexadecimal digits of a uuid.  It is not empty, so the
    first join under it, to a directory that does not hold it, creates the
    room under that very id, with the joiner as its only member and host. *)
Theorem create_room_id (t : nat) :
  let id := (Home.createRoom t).1 in
  String.length id = 8
  ∧ forallb is_hex (list_ascii_of_string id) = true
  ∧ String.prefix id (JS.uuid_string (entropy t)) = true
  ∧ ∀ w sock username,
      rooms w !! id = None →
      ∃ room' u,
        rooms (world (on_room_join sock id username w)) !! id = Some room'
        ∧ reply (on_room_join sock id username w) = Some (OkUser u)
        ∧ Room.id room' = id
        ∧ Room.users room' = [u]
        ∧ User.socketId u = sock
        ∧ Room.hostId room' = Some (User.id u).
Proof.
  intros id.
  assert (∃ rest,
    id = string_of_list_ascii
           (map JS.hex_digit (take 8 (JS.nibbles 32 (entropy t))))
    ∧ JS.uuid_string (entropy t) = id +:+ rest) as (rest & Hid & Huuid).
  { eexists. subst id. unfold Home.createRoom, bind, ret, uuidv4. cbn [fst].
    unfold JS.uuid_string.
    change ("-" +:+ ?x) with (String "-" x).
    rewrite before_hex. split; reflexivity. }
  assert (String.length id = 8) as Hlen.
  { rewrite Hid, length_string_of_list_ascii, length_map, length_take,
      nibbles_length. reflexivity. }
  clearbody id. split_and!.
  - done.
  - rewrite Hid, list_ascii_of_string_of_list_ascii.
    apply forallb_forall. intros c [n [<- _]]%in_map_iff.
    apply is_hex_hex_digit.
  - rewrite Huuid. apply prefix_append.
  - intros w sock username Hnone.
    assert (JS.truthy id = true) as Htruthy by (by destruct id).
    destruct (join_effect sock id username w)
      as (key & r0 & r' & u & Hrooms & Hsrc & Hch & _ & Hreply).
    destruct Hsrc as [[Hsome _] | (_ & -> & Hkey)]; [congruence|].
    rewrite Htruthy in Hkey. subst key.
    destruct Hch as (Hrid & _ & Hsock & _ & Hus & Hhost & _).
    exists r', u. rewrite Hrooms, lookup_insert_eq.
    split_and!; done.
Qed.

End Members.

Section MembersScenario.
#[local] Existing Instance sample_runtime.

Lemma members_found_by_id_witness :
  Room.getUser (proto_name sample_world) sample_room (User.id sample_guest)
  = Some (JS.Own sample_guest)
  ∧ Room.users (Room.removeUser (User.id sample_guest) sample_room)
    = [ sample_host ].
Proof.
  destruct (members_found_by_id
              [ RoomJoin "s1" "abc" (Some "Ann"); RoomJoin "s2" "abc" (Some "Bea") ]
              "abc" sample_room sample_guest)
    as (Hget & _ & _).
  - vm_compute. reflexivity.
  - assert (Room.users sample_room = [ sample_host; sample_guest ]) as ->
      by (vm_compute; reflexivity).
    right. left.
  - split; [apply Hget | vm_compute; reflexivity].
Defined.
End MembersScenario.
